(** * vscode-kotlin: transport negotiation and connection lifecycle

    A shallow embedding of [src/languageSetup.ts]: the transport selector,
    the stdio connector, the TCP launch connector, the TCP attach connector
    and the activation routine that ties them together.

    Conventions of the embedding
    - a JS object used as a string-keyed map (the environment of a child
      process) is a [gmap string string];
    - Node's event emitters are association lists of registrations, because
      both the order of registration and duplicates matter;
    - callbacks run by the event loop become a step function over an explicit
      state, driven by a list of events chosen by the environment;
    - the side effects of the activation routine are collected by a small
      writer/exception monad. *)

From stdpp Require Import gmap strings list pretty.

Open Scope string_scope.
Open Scope list_scope.

(** ** JavaScript values and helpers *)

Module JS.

(** Truthiness of a value that is either [undefined] or a string. *)
Definition truthy (v : option string) : bool :=
  match v with
  | Some s => bool_decide (s ≠ "")
  | None => false
  end.

(** [String(v)], as performed by a template literal. *)
Definition to_string (v : option string) : string :=
  match v with
  | Some s => s
  | None => "undefined"
  end.

(** [ToPropertyKey(v)] for an index expression [obj[v]]. *)
Definition property_key (v : option string) : string := to_string v.

(** [`${n}`] for a number or [undefined]. *)
Definition number_to_string (v : option N) : string :=
  match v with
  | Some n => pretty n
  | None => "undefined"
  end.

(** [s.endsWith(suffix)]. *)
Definition endsWith (s suffix : string) : bool :=
  bool_decide (String.length suffix ≤ String.length s)%nat &&
  bool_decide
    (String.substring (String.length s - String.length suffix)%nat
                      (String.length suffix) s = suffix).

(** [s.includes(sub)], as a proposition. *)
Definition includes (s sub : string) : Prop :=
  ∃ before after, s = before +:+ sub +:+ after.

(** Result of reading a property. [Inherited] stands for the members every
    object literal takes from [Object.prototype]; they are functions or
    objects, hence never [undefined]. *)
Inductive value :=
| Undefined
| Str (s : string)
| Inherited (name : string).

Definition object_prototype_keys : list string :=
  [ "constructor"; "__proto__"; "hasOwnProperty"; "isPrototypeOf";
    "propertyIsEnumerable"; "toLocaleString"; "toString"; "valueOf";
    "__defineGetter__"; "__defineSetter__";
    "__lookupGetter__"; "__lookupSetter__" ].

(** [obj[key]] on a plain object with the given own properties. *)
Definition get (own : list (string * string)) (key : string) : value :=
  match list_find (λ kv, kv.1 = key) own with
  | Some (_, (_, v)) => Str v
  | None =>
      if bool_decide (key ∈ object_prototype_keys)
      then Inherited key else Undefined
  end.

(** [v == undefined] (loose equality: only [undefined] and [null]). *)
Definition is_undefined (v : value) : bool :=
  match v with
  | Undefined => true
  | _ => false
  end.

End JS.

(** ** Promises: settled at most once *)

Inductive Promise (A : Type) :=
| Pending
| Fulfilled (a : A)
| Rejected (e : string).
Arguments Pending {A}.
Arguments Fulfilled {A} a.
Arguments Rejected {A} e.

Definition resolve {A} (a : A) (p : Promise A) : Promise A :=
  match p with
  | Pending => Fulfilled a
  | _ => p
  end.

Definition reject {A} (e : string) (p : Promise A) : Promise A :=
  match p with
  | Pending => Rejected e
  | _ => p
  end.

(** ** Types of [languageSetup.ts] *)

Record TServerDebugConfig := {
  is_enabled : bool;
  auto_suspend : bool;
  port : Z
}.

Inductive TransportLayer := STDIO | TCP | TCP_RANDOM | TCP_ATTACH.

(** The string each enum member is initialised with. *)
Definition TransportLayer_value (t : TransportLayer) : string :=
  match t with
  | STDIO => "stdio"
  | TCP => "tcp"
  | TCP_RANDOM => "tcp-random"
  | TCP_ATTACH => "tcp-attach"
  end.

(** The member's name. *)
Definition TransportLayer_name (t : TransportLayer) : string :=
  match t with
  | STDIO => "STDIO"
  | TCP => "TCP"
  | TCP_RANDOM => "TCP_RANDOM"
  | TCP_ATTACH => "TCP_ATTACH"
  end.

Definition TransportLayer_members : list TransportLayer :=
  [STDIO; TCP; TCP_RANDOM; TCP_ATTACH].

(** The object a string enum compiles to: one own property per member, from
    the member's name to its value, and no reverse mapping. *)
Definition TransportLayer_object : list (string * string) :=
  (λ t, (TransportLayer_name t, TransportLayer_value t)) <$> TransportLayer_members.

Definition Socket := nat.

(** [StreamInfo] of vscode-languageclient. *)
Record StreamInfo := {
  reader : Socket;
  writer : Socket
}.

(** The three shapes [ServerOptions] takes in this file; [NoServerOptions] is
    the [undefined] that the arrow function falls through to. *)
Inductive ServerOptions :=
| Executable (command : string) (args : list string)
             (cwd : option string) (env : gmap string string)
| StreamFactory (startScriptPath : string) (tcpPort : option N)
| NoServerOptions.

(** ** Stdio connector *)

Definition KOTLIN_LANGUAGE_SERVER_OPTS (debugConfiguration : TServerDebugConfig) : string :=
  "-Xdebug -agentlib:jdwp=transport=dt_socket,address="
    +:+ pretty (port debugConfiguration)
    +:+ ",server=y,quiet=y,suspend="
    +:+ (if auto_suspend debugConfiguration then "y" else "n").

(** The environment [stdio_launch] leaves in [env]. *)
Definition stdio_env (env : gmap string string)
    (debugConfiguration : TServerDebugConfig) : gmap string string :=
  if is_enabled debugConfiguration
  then <["KOTLIN_LANGUAGE_SERVER_OPTS" := KOTLIN_LANGUAGE_SERVER_OPTS debugConfiguration]> env
  else env.

(** [workspaceFolders] is the list of workspace roots ([undefined] is the
    empty list): the working directory is the first one, if any. *)
Definition stdio_launch (workspaceFolders : list string) (startPath : string)
    (env : gmap string string) (debugConfiguration : TServerDebugConfig) : ServerOptions :=
  Executable startPath [] (head workspaceFolders) (stdio_env env debugConfiguration).

Definition options_env (o : ServerOptions) : option (gmap string string) :=
  match o with
  | Executable _ _ _ env => Some env
  | _ => None
  end.

(** ** Listening sockets of [net] *)

Inductive ServerStatus :=
| Idle                  (* the bind failed: the server never listens *)
| Binding               (* [listen] was called, the OS has not answered yet *)
| Listening (port : N)  (* bound to [port], accepting connections *)
| Closed.               (* [close] was called *)

#[global] Instance ServerStatus_eq_dec : EqDecision ServerStatus.
Proof. solve_decision. Defined.

(** The port [server.address().port] reports once the socket is bound: the
    requested one, or the one the OS assigned when the request was [null],
    [undefined] or [0]. *)
Definition bound_port (requested : option N) (assigned : positive) : N :=
  match requested with
  | Some (Npos p) => Npos p
  | _ => Npos assigned
  end.

(** [server.listen] takes [null], [undefined] or an integer from 0 to 65535
    as a port; for any other number it throws [ERR_SOCKET_BAD_PORT] before
    it binds anything. *)
Definition valid_port (requested : option N) : bool :=
  match requested with
  | Some n => bool_decide (n ≤ 65535)%N
  | None => true
  end.

Definition is_listening (s : ServerStatus) : bool :=
  match s with
  | Listening _ => true
  | _ => false
  end.

(** A server emits ['error'] while it binds (the bind failed) or while it
    listens (an accept failed). *)
Definition is_live (s : ServerStatus) : bool :=
  match s with
  | Binding | Listening _ => true
  | _ => false
  end.

Definition after_error (s : ServerStatus) : ServerStatus :=
  match s with
  | Binding => Idle
  | _ => s
  end.

(** ** TCP launch connector *)

Module TcpLaunch.

Inductive Event :=
| SrvListening (assigned : positive)
| SrvConnection (socket : Socket)
| SrvError (e : string)
| ProcStdout (data : string)
| ProcStderr (data : string)
| ProcExit (code : option Z) (sig : option string).

(** What one invocation does to the outside, in order. *)
Inductive Action :=
| LogInfo (msg : string) (args : list string)
| Listen (tcpPort : option N)
| Spawn (command : string) (args : list string) (env : option (gmap string string))
| CloseServer
| Resolve (info : StreamInfo)
| Reject (e : string)
| Append (text : string)
| AppendLine (text : string).

Record State := {
  status : ServerStatus;
  promise : Promise StreamInfo;
  proc : bool;               (* the child process exists *)
  accepted : list Socket;    (* connections handed to the connection listener *)
  refused : list Socket;     (* connection attempts that found no listener *)
  actions : list Action
}.

Definition null_or {A} (f : A → string) (v : option A) : string :=
  match v with
  | Some a => f a
  | None => "null"
  end.

Section connector.
Variable startScriptPath : string.
Variable tcpPort : option N.

(** The executor of the returned promise, up to [server.on("error", ...)].
    When [server.listen] throws, the executor ends there: the promise is
    rejected with what was thrown, [reject] is not called, no error listener
    is registered and the server never binds. *)
Definition tcp_launch : State :=
  if valid_port tcpPort then
    {| status := Binding;
       promise := Pending;
       proc := false;
       accepted := [];
       refused := [];
       actions := [LogInfo "Creating server." []; Listen tcpPort] |}
  else
    {| status := Idle;
       promise := Rejected "ERR_SOCKET_BAD_PORT";
       proc := false;
       accepted := [];
       refused := [];
       actions := [LogInfo "Creating server." []; Listen tcpPort] |}.

(** [net.createServer(socket => ...)]. *)
Definition on_connection (socket : Socket) (st : State) : State :=
  {| status := Closed;
     promise := resolve {| reader := socket; writer := socket |} (promise st);
     proc := proc st;
     accepted := accepted st ++ [socket];
     refused := refused st;
     actions := actions st ++
       [LogInfo "Closing server since client has connected." [];
        CloseServer;
        Resolve {| reader := socket; writer := socket |}] |}.

(** The callback given to [server.listen], run once the server is ready;
    [address] is [server.address().port]. *)
Definition on_listening (address : N) (st : State) : State :=
  let tcpPort := pretty address in
  {| status := Listening address;
     promise := promise st;
     proc := true;
     accepted := accepted st;
     refused := refused st;
     actions := actions st ++
       [Spawn startScriptPath ["--tcpClientPort"; tcpPort] None;
        LogInfo "Creating client at {} via TCP port {}" [startScriptPath; tcpPort]] |}.

(** [server.on("error", e => reject(e))]. *)
Definition on_error (e : string) (st : State) : State :=
  {| status := after_error (status st);
     promise := reject e (promise st);
     proc := proc st;
     accepted := accepted st;
     refused := refused st;
     actions := actions st ++ [Reject e] |}.

Definition output (a : Action) (st : State) : State :=
  {| status := status st;
     promise := promise st;
     proc := proc st;
     accepted := accepted st;
     refused := refused st;
     actions := actions st ++ [a] |}.

Definition refuse (socket : Socket) (st : State) : State :=
  {| status := status st;
     promise := promise st;
     proc := proc st;
     accepted := accepted st;
     refused := refused st ++ [socket];
     actions := actions st |}.

Definition step (st : State) (ev : Event) : State :=
  match ev with
  | SrvListening assigned =>
      match status st with
      | Binding => on_listening (bound_port tcpPort assigned) st
      | _ => st
      end
  | SrvConnection socket =>
      if is_listening (status st) then on_connection socket st
      else refuse socket st
  | SrvError e =>
      if is_live (status st) then on_error e st else st
  | ProcStdout data | ProcStderr data =>
      if proc st then output (Append data) st else st
  | ProcExit code sig =>
      if proc st
      then output (AppendLine ("The language server exited, code: "
                                 +:+ null_or pretty code
                                 +:+ ", signal: " +:+ null_or id sig)) st
      else st
  end.

Definition run (events : list Event) : State := foldl step tcp_launch events.

End connector.

Definition connections (events : list Event) : list Socket :=
  omap (λ ev, match ev with SrvConnection s => Some s | _ => None end) events.

Definition errors (events : list Event) : list string :=
  omap (λ ev, match ev with SrvError e => Some e | _ => None end) events.

(** The answers of the OS that the socket is bound, among the events. *)
Definition readies (events : list Event) : list positive :=
  omap (λ ev, match ev with SrvListening a => Some a | _ => None end) events.

Definition rejections (acts : list Action) : list string :=
  omap (λ a, match a with Reject e => Some e | _ => None end) acts.

Definition spawns (acts : list Action)
    : list (string * list string * option (gmap string string)) :=
  omap (λ a, match a with Spawn c args env => Some (c, args, env) | _ => None end) acts.

Definition resolutions (acts : list Action) : list StreamInfo :=
  omap (λ a, match a with Resolve i => Some i | _ => None end) acts.

(** The environment a spawned child runs in: [options.env], or the
    environment of the parent when no [env] option is given. *)
Definition child_env (inherited : gmap string string)
    (env : option (gmap string string)) : gmap string string :=
  default inherited env.

Definition listens (acts : list Action) : list (option N) :=
  omap (λ a, match a with Listen p => Some p | _ => None end) acts.

(** A step that runs none of the three callbacks of the server: at most a
    connection attempt is turned away or process output is forwarded. *)
Definition quiet (startScriptPath : string) (tcpPort : option N)
    (st : State) (ev : Event) : Prop :=
  let st' := step startScriptPath tcpPort st ev in
  status st' = status st ∧
  promise st' = promise st ∧
  accepted st' = accepted st ∧
  refused st' = refused st ++ connections [ev] ∧
  spawns (actions st') = spawns (actions st) ∧
  resolutions (actions st') = resolutions (actions st) ∧
  listens (actions st') = listens (actions st).

End TcpLaunch.

(** ** Node's [EventEmitter]

    The registrations of one emitter, oldest first. A registration made with
    [once] is removed when it is first invoked. *)

Module EventEmitter.

Record Registration (H : Type) := {
  event : string;
  is_once : bool;
  listener : H
}.
Arguments event {H} _.
Arguments is_once {H} _.
Arguments listener {H} _.

Definition t (H : Type) := list (Registration H).

Section ops.
Context {H : Type} `{EqDecision H}.

Definition on (ev : string) (h : H) (em : t H) : t H :=
  (em ++ [{| event := ev; is_once := false; listener := h |}])%list.

Definition once (ev : string) (h : H) (em : t H) : t H :=
  (em ++ [{| event := ev; is_once := true; listener := h |}])%list.

Definition registered (ev : string) (r : Registration H) : bool :=
  bool_decide (event r = ev).

Definition listeners (ev : string) (em : t H) : t H :=
  List.filter (registered ev) em.

Definition listenerCount (ev : string) (em : t H) : nat :=
  length (listeners ev em).

Definition removeAllListeners (ev : string) (em : t H) : t H :=
  List.filter (λ r, negb (registered ev r)) em.

Definition same (ev : string) (h : H) (r : Registration H) : bool :=
  registered ev r && bool_decide (listener r = h).

Fixpoint remove_first (ev : string) (h : H) (em : t H) : t H :=
  match em with
  | [] => []
  | r :: rest => if same ev h r then rest else r :: remove_first ev h rest
  end.

(** [removeListener] drops the most recently added matching registration. *)
Definition removeListener (ev : string) (h : H) (em : t H) : t H :=
  reverse (remove_first ev h (reverse em)).

End ops.

End EventEmitter.

(** ** TCP attach connector *)

Module TcpAttach.

(** The closures the connector registers. [connection_listener n] is the
    listener created by the [n]-th call of the channel source; [on_close n]
    is the handler that listener arms on the socket it receives, which calls
    [server.removeListener("connect", connection_listener)]. *)
Inductive ServerHandler := connection_listener (invocation : nat).
Inductive SocketHandler := on_close (invocation : nat).

#[global] Instance ServerHandler_eq_dec : EqDecision ServerHandler.
Proof. solve_decision. Defined.
#[global] Instance SocketHandler_eq_dec : EqDecision SocketHandler.
Proof. solve_decision. Defined.

Inductive Event :=
| Start                          (* the client calls the channel source *)
| SrvListening (assigned : positive)
| SrvConnection (socket : Socket)
| SrvError (e : string)
| SocketClose (socket : Socket).

Record State := {
  status : ServerStatus;
  server : EventEmitter.t ServerHandler;
  sockets : gmap Socket (EventEmitter.t SocketHandler);
  promises : list (Promise StreamInfo);  (* one per call of the channel source *)
  uncaught : list string                 (* ['error'] events nobody listens to *)
}.

Definition set_server (em : EventEmitter.t ServerHandler) (st : State) : State :=
  {| status := status st; server := em; sockets := sockets st;
     promises := promises st; uncaught := uncaught st |}.

Definition socket_emitter (socket : Socket) (st : State) : EventEmitter.t SocketHandler :=
  default [] (sockets st !! socket).

Definition set_socket (socket : Socket) (em : EventEmitter.t SocketHandler)
    (st : State) : State :=
  {| status := status st; server := server st;
     sockets := <[socket := em]> (sockets st);
     promises := promises st; uncaught := uncaught st |}.

Definition set_promises (ps : list (Promise StreamInfo)) (st : State) : State :=
  {| status := status st; server := server st; sockets := sockets st;
     promises := ps; uncaught := uncaught st |}.

Definition set_status (s : ServerStatus) (st : State) : State :=
  {| status := s; server := server st; sockets := sockets st;
     promises := promises st; uncaught := uncaught st |}.

Definition throw (e : string) (st : State) : State :=
  {| status := status st; server := server st; sockets := sockets st;
     promises := promises st; uncaught := uncaught st ++ [e] |}.

(** [net.createServer()] followed by [server.listen(tcpPort)]: no listener
    of any kind is registered. *)
Definition tcp_attach (tcpPort : option N) : State :=
  {| status := Binding; server := []; sockets := ∅;
     promises := []; uncaught := [] |}.

(** The function [tcp_attach] returns, called at every start of the client. *)
Definition channel_source (st : State) : State :=
  let invocation := length (promises st) in
  let st := set_promises (promises st ++ [Pending]) st in
  let st := set_server (EventEmitter.removeAllListeners "connect" (server st)) st in
  set_server
    (EventEmitter.once "connection" (connection_listener invocation) (server st)) st.

Definition call_server_handler (h : ServerHandler) (socket : Socket) (st : State) : State :=
  match h with
  | connection_listener invocation =>
      let st :=
        set_socket socket
          (EventEmitter.once "close" (on_close invocation) (socket_emitter socket st)) st in
      set_promises
        (alter (resolve {| reader := socket; writer := socket |}) invocation (promises st))
        st
  end.

Definition call_socket_handler (h : SocketHandler) (st : State) : State :=
  match h with
  | on_close invocation =>
      set_server
        (EventEmitter.removeListener "connect" (connection_listener invocation) (server st))
        st
  end.

(** [server.emit(ev, socket)]: the listeners registered when the event
    fires are called in order; a [once] registration is removed just before
    its listener runs. *)
Definition emit_server (ev : string) (socket : Socket) (st : State) : State :=
  foldl
    (λ st r,
       let st :=
         if EventEmitter.is_once r
         then set_server
                (EventEmitter.removeListener ev (EventEmitter.listener r) (server st)) st
         else st in
       call_server_handler (EventEmitter.listener r) socket st)
    st (EventEmitter.listeners ev (server st)).

(** [socket.emit(ev)]. *)
Definition emit_socket (socket : Socket) (ev : string) (st : State) : State :=
  foldl
    (λ st r,
       let st :=
         if EventEmitter.is_once r
         then set_socket socket
                (EventEmitter.removeListener ev (EventEmitter.listener r)
                   (socket_emitter socket st)) st
         else st in
       call_socket_handler (EventEmitter.listener r) st)
    st (EventEmitter.listeners ev (socket_emitter socket st)).

Section connector.
Variable tcpPort : option N.

Definition step (st : State) (ev : Event) : State :=
  match ev with
  | Start => channel_source st
  | SrvListening assigned =>
      match status st with
      | Binding => set_status (Listening (bound_port tcpPort assigned)) st
      | _ => st
      end
  | SrvConnection socket =>
      if is_listening (status st) then emit_server "connection" socket st else st
  | SrvError e =>
      if is_live (status st) then
        let st := set_status (after_error (status st)) st in
        match EventEmitter.listenerCount "error" (server st) with
        | O => throw e st
        | _ => st
        end
      else st
  | SocketClose socket => emit_socket socket "close" st
  end.

Definition run (events : list Event) : State :=
  foldl step (tcp_attach tcpPort) events.

End connector.

(** Registrations waiting for the next inbound connection. *)
Definition waiting (st : State) : nat :=
  EventEmitter.listenerCount "connection" (server st).

(** Calls of the channel source among the events. *)
Definition starts (events : list Event) : nat :=
  length (omap (λ ev, match ev with Start => Some () | _ => None end) events).

(** The states the connector can leave a channel in. *)
Definition pending_or_connected (p : Promise StreamInfo) : Prop :=
  p = Pending ∨ ∃ socket, p = Fulfilled {| reader := socket; writer := socket |}.

End TcpAttach.

(** ** Activation of the language server *)

Module Activation.

(** The two requests of [lspExtensions] this file sends. *)
Inductive LspExtension := OverrideMemberRequest | MainClassRequest.

#[global] Instance LspExtension_eq_dec : EqDecision LspExtension.
Proof. solve_decision. Defined.

(** Calls into the editor, the file system and the logger, in program order. *)
Inductive Effect :=
| LogInfo (msg : string)
| StatusUpdate (msg : string)
| StatusDispose
| DownloadServerIfNeeded (installDir : string)
| ConsoleError (error : string)
| ShowWarningMessage (msg : string)
| CreateOutputChannel (name : string)
| Subscribe (what : string)
| Mkdir (path : string)
| ConfigUpdate (key value : string)
| Chmod (path : string) (mode : Z)
| CallTcpAttach (tcpPort : option N)
| CreateFileSystemWatcher (globPattern : string)
| NewLanguageClient (serverOptions : ServerOptions) (storagePath : string)
| ClientStart
| RegisterContentProvider (scheme : string)
| RegisterCommand (command : string) (sends : option LspExtension)
| RegisterCodeLensProvider (language : string).

(** How a block of the routine ends: with a value, with the early
    [return;] of the download handler, or with an exception. *)
Inductive Completion (A : Type) :=
| Value (a : A)
| ReturnUndefined
| Throw (e : string).
Arguments Value {A} a.
Arguments ReturnUndefined {A}.
Arguments Throw {A} e.

Definition Act (A : Type) : Type := list Effect * Completion A.

#[global] Instance Act_ret : MRet Act := λ A a, ([], Value a).

#[global] Instance Act_bind : MBind Act := λ A B f m,
  match m.2 with
  | Value a => (m.1 ++ (f a).1, (f a).2)
  | ReturnUndefined => (m.1, ReturnUndefined)
  | Throw e => (m.1, Throw e)
  end.

Definition emit (eff : Effect) : Act () := ([eff], Value ()).
Definition throw {A} (e : string) : Act A := ([], Throw e).
Definition return_undefined {A} : Act A := ([], ReturnUndefined).
Definition when (b : bool) (m : Act ()) : Act () := if b then m else mret ().

(** The [kotlin.*] settings read by the routine. *)
Record Config := {
  languageServer_path : option string;
  languageServer_watchFiles : option (list string);
  languageServer_transport : option string;
  languageServer_debugAttach_enabled : bool;
  languageServer_debugAttach_autoSuspend : bool;
  languageServer_debugAttach_port : Z;
  languageServer_port : option N;
  debugAdapter_enabled : bool
}.

(** What the routine imports from [path] and [./util/osUtils]. *)
Record Platform := {
  path_join : list string → string;
  path_resolve : list string → string;
  correctScriptName : string → string;
  isOSUnixoid : bool
}.

(** What the routine is handed ([ServerSetupParams]) and what the outside
    world answers: an [_error] of [Some e] is a failure with error [e]. *)
Record Host := {
  globalStorageUri : string;
  storageUri : option string;       (* undefined when no folder is open *)
  javaHome : option string;
  javaOpts : option string;
  process_env : gmap string string;
  workspaceFolders : list string;
  download_error : option string;   (* downloadServerIfNeeded rejects *)
  storage_exists : bool;            (* fsExists(storagePath) *)
  mkdir_error : option string;      (* fs.promises.mkdir rejects *)
  stat_mode : string + Z;           (* fs.statSync(..).mode, or it throws *)
  chmod_error : option string;      (* fs.chmodSync throws *)
  start_error : option string       (* languageClient.start() rejects *)
}.

Inductive KotlinApi := new_KotlinApi.

Definition S_IXUSR : Z := 64.   (* 0o100 *)

Definition default_watchFiles : list string :=
  ["**/*.kt"; "**/*.kts"; "**/*.java"; "**/pom.xml";
   "**/build.gradle"; "**/settings.gradle"].

Section routine.
Variable os : Platform.
Variable host : Host.
Variable config : Config.

(** Lines 81-90: validation of [languageServer.transport]. *)
Definition transport_selector : Act (option string) :=
  let transportLayer := languageServer_transport config in
  if JS.is_undefined (JS.get TransportLayer_object (JS.property_key transportLayer))
  then
    let DEFAULT_TRANSPORT_LAYER := TransportLayer_value STDIO in
    emit (LogInfo ("Unknown transport layer: " +:+ JS.to_string transportLayer
                     +:+ ". Falling back to default: " +:+ DEFAULT_TRANSPORT_LAYER));;
    emit (ConfigUpdate "languageServer.transport" DEFAULT_TRANSPORT_LAYER);;
    mret (Some DEFAULT_TRANSPORT_LAYER)
  else mret transportLayer.

Definition is_layer (transportLayer : option string) (t : TransportLayer) : bool :=
  bool_decide (transportLayer = Some (TransportLayer_value t)).

(** The immediately invoked arrow function that builds [serverOptions]. *)
Definition serverOptions (startScriptPath : string) : Act ServerOptions :=
  transportLayer ← transport_selector;
  when (negb (is_layer transportLayer TCP_ATTACH) && isOSUnixoid os)
    match stat_mode host with
    | inr mode =>
        let current_mode := Z.land mode 511 in
        emit (Chmod startScriptPath (Z.lor current_mode S_IXUSR));;
        match chmod_error host with
        | None => mret ()
        | Some e => throw e
        end
    | inl e => throw e
    end;;
  if is_layer transportLayer STDIO then
    emit (LogInfo "Connecting via Stdio.");;
    let debugConfig :=
      {| is_enabled := languageServer_debugAttach_enabled config;
         auto_suspend := languageServer_debugAttach_autoSuspend config;
         port := languageServer_debugAttach_port config |} in
    let env := process_env host in
    let env := if JS.truthy (javaHome host)
               then <["JAVA_HOME" := JS.to_string (javaHome host)]> env else env in
    let env := if JS.truthy (javaOpts host)
               then <["JAVA_OPTS" := JS.to_string (javaOpts host)]> env else env in
    mret (stdio_launch (workspaceFolders host) startScriptPath env debugConfig)
  else
    let tcpPort := languageServer_port config in
    if is_layer transportLayer TCP then
      emit (LogInfo ("Connecting via TCP, port: " +:+ JS.number_to_string tcpPort));;
      mret (StreamFactory startScriptPath tcpPort)
    else if is_layer transportLayer TCP_RANDOM then
      mret (StreamFactory startScriptPath None)
    else if is_layer transportLayer TCP_ATTACH then
      emit (CallTcpAttach tcpPort);;
      mret NoServerOptions
    else mret NoServerOptions.

Definition createLanguageClient (serverConnectionOptions : ServerOptions)
    (storagePath : string) (fileEventsGlobPatterns : list string) : Act () :=
  foldr (λ globPattern rest, emit (CreateFileSystemWatcher globPattern);; rest)
        (mret ()) fileEventsGlobPatterns;;
  emit (NewLanguageClient serverConnectionOptions storagePath).

Definition langServerInstallDir : string :=
  path_join os [globalStorageUri host; "langServerInstall"].

Definition startScriptPath : string :=
  let customPath := languageServer_path config in
  if JS.truthy customPath then JS.to_string customPath
  else path_resolve os [langServerInstallDir; "server"; "bin";
                        correctScriptName os "kotlin-language-server"].

(** Lines 147-228: the client is started, the content provider and the
    commands are registered, then the start is awaited. *)
Definition start_and_register : Act KotlinApi :=
  emit ClientStart;;
  emit (RegisterContentProvider "kls");;
  emit (Subscribe "contentProvider");;
  emit (RegisterCommand "kotlin.overrideMember" (Some OverrideMemberRequest));;
  let debugAdapterEnabled := debugAdapter_enabled config in
  let usesStandardLanguageServer :=
    JS.endsWith startScriptPath "kotlin-language-server" in
  when (debugAdapterEnabled && usesStandardLanguageServer)
    (emit (RegisterCodeLensProvider "kotlin");;
     emit (RegisterCommand "kotlin.resolveMain" (Some MainClassRequest));;
     emit (RegisterCommand "kotlin.runMain" None);;
     emit (RegisterCommand "kotlin.debugMain" None));;
  match start_error host with
  | None => mret new_KotlinApi
  | Some e => throw e
  end.

Definition activateLanguageServer : Act KotlinApi :=
  emit (LogInfo "Activating Kotlin Language Server...");;
  emit (StatusUpdate "Activating Kotlin Language Server...");;
  let customPath := languageServer_path config in
  when (negb (JS.truthy customPath))
    (emit (DownloadServerIfNeeded langServerInstallDir);;
     match download_error host with
     | None => mret ()
     | Some error =>
         emit (ConsoleError error);;
         emit (ShowWarningMessage
                 ("Could not update/download Kotlin Language Server: " +:+ error));;
         return_undefined
     end);;
  emit (CreateOutputChannel "Kotlin");;
  emit (Subscribe "outputChannel");;
  emit StatusDispose;;
  storagePath ← match storageUri host with
                | Some fsPath => mret fsPath
                | None => throw "TypeError"
                end;
  when (negb (storage_exists host))
    (emit (Mkdir storagePath);;
     match mkdir_error host with
     | None => mret ()
     | Some e => throw e
     end);;
  let fileEventsGlobPatterns :=
    default default_watchFiles (languageServer_watchFiles config) in
  options ← serverOptions startScriptPath;
  createLanguageClient options storagePath fileEventsGlobPatterns;;
  start_and_register.

End routine.

Definition with_transport (transport : option string) (config : Config) : Config :=
  {| languageServer_path := languageServer_path config;
     languageServer_watchFiles := languageServer_watchFiles config;
     languageServer_transport := transport;
     languageServer_debugAttach_enabled := languageServer_debugAttach_enabled config;
     languageServer_debugAttach_autoSuspend := languageServer_debugAttach_autoSuspend config;
     languageServer_debugAttach_port := languageServer_debugAttach_port config;
     languageServer_port := languageServer_port config;
     debugAdapter_enabled := debugAdapter_enabled config |}.

(** Effects of the set-up phase: anything but the start of the client and
    the registration of a command. *)
Definition is_setup (eff : Effect) : Prop :=
  match eff with
  | ClientStart | RegisterCommand _ _ => False
  | _ => True
  end.

(** An activation wires a protocol extension when it registers a command
    that sends the request. *)
Definition wired (ext : LspExtension) (effects : list Effect) : Prop :=
  ∃ command, RegisterCommand command (Some ext) ∈ effects.

Definition starts_client (effects : list Effect) : Prop := ClientStart ∈ effects.

Definition config_writes (effects : list Effect) : list (string * string) :=
  omap (λ eff, match eff with ConfigUpdate k v => Some (k, v) | _ => None end) effects.

Definition warnings (effects : list Effect) : list string :=
  omap (λ eff, match eff with ShowWarningMessage m => Some m | _ => None end) effects.

(** [reaches final r]: the run [r] either stops during set-up, having
    performed set-up effects only, or continues with the whole of [final]. *)
Definition reaches {A} (final r : Act A) : Prop :=
  (Forall is_setup r.1 ∧ ∀ a, r.2 ≠ Value a) ∨
  (∃ pre, Forall is_setup pre ∧ r.1 = pre ++ final.1 ∧ r.2 = final.2).

(** A platform for the examples: POSIX separators, no script suffix. *)
Definition posix : Platform :=
  {| path_join := λ parts, foldr (λ p acc, if bool_decide (acc = "") then p
                                           else p +:+ "/" +:+ acc) "" parts;
     path_resolve := λ parts, foldr (λ p acc, if bool_decide (acc = "") then p
                                              else p +:+ "/" +:+ acc) "" parts;
     correctScriptName := id;
     isOSUnixoid := true |}.


(** Inputs of the examples: a host where everything succeeds, one where
    the download fails, and three configurations. *)
Definition example_host : Host :=
  {| globalStorageUri := "/home/u/.config/Code/globalStorage/kotlin";
     storageUri := Some "/home/u/.config/Code/workspaceStorage/1/kotlin";
     javaHome := Some "/usr/lib/jvm/jdk-17";
     javaOpts := None;
     process_env := {[ "PATH" := "/usr/bin" ]};
     workspaceFolders := ["/work"];
     download_error := None;
     storage_exists := true;
     mkdir_error := None;
     stat_mode := inr 420%Z;
     chmod_error := None;
     start_error := None |}.

Definition offline_host : Host :=
  {| globalStorageUri := globalStorageUri example_host;
     storageUri := storageUri example_host;
     javaHome := javaHome example_host;
     javaOpts := javaOpts example_host;
     process_env := process_env example_host;
     workspaceFolders := workspaceFolders example_host;
     download_error := Some "ETIMEDOUT";
     storage_exists := true;
     mkdir_error := None;
     stat_mode := inr 420%Z;
     chmod_error := None;
     start_error := None |}.

(** No folder is open: the extension has no workspace storage. *)
Definition folderless_host : Host :=
  {| globalStorageUri := globalStorageUri example_host;
     storageUri := None;
     javaHome := javaHome example_host;
     javaOpts := javaOpts example_host;
     process_env := process_env example_host;
     workspaceFolders := [];
     download_error := None;
     storage_exists := false;
     mkdir_error := None;
     stat_mode := inr 420%Z;
     chmod_error := None;
     start_error := None |}.

(** The start script belongs to another user: [chmod] is not permitted. *)
Definition foreign_script_host : Host :=
  {| globalStorageUri := globalStorageUri example_host;
     storageUri := storageUri example_host;
     javaHome := javaHome example_host;
     javaOpts := javaOpts example_host;
     process_env := process_env example_host;
     workspaceFolders := workspaceFolders example_host;
     download_error := None;
     storage_exists := true;
     mkdir_error := None;
     stat_mode := inr 420%Z;
     chmod_error := Some "EPERM";
     start_error := None |}.

Definition managed_config : Config :=
  {| languageServer_path := None;
     languageServer_watchFiles := None;
     languageServer_transport := Some "tcp";
     languageServer_debugAttach_enabled := false;
     languageServer_debugAttach_autoSuspend := false;
     languageServer_debugAttach_port := 5005;
     languageServer_port := Some 8080%N;
     debugAdapter_enabled := true |}.

Definition custom_server_config : Config :=
  {| languageServer_path := Some "/opt/kls/bin/kotlin-language-server";
     languageServer_watchFiles := None;
     languageServer_transport := Some "stdio";
     languageServer_debugAttach_enabled := false;
     languageServer_debugAttach_autoSuspend := false;
     languageServer_debugAttach_port := 5005;
     languageServer_port := None;
     debugAdapter_enabled := true |}.

Definition other_server_config : Config :=
  {| languageServer_path := Some "/opt/other/bin/my-language-server";
     languageServer_watchFiles := None;
     languageServer_transport := Some "stdio";
     languageServer_debugAttach_enabled := false;
     languageServer_debugAttach_autoSuspend := false;
     languageServer_debugAttach_port := 5005;
     languageServer_port := None;
     debugAdapter_enabled := true |}.

End Activation.

(** ** Reading the logs of the connectors *)

Module LaunchLog.
Import TcpLaunch.

(** What the connector hands to the output channel, in order. *)
Definition forwarded (acts : list Action) : list Action :=
  omap (λ a, match a with
             | Append _ | AppendLine _ => Some a
             | _ => None
             end) acts.

(** What the callbacks on [proc.stdout], [proc.stderr] and [proc] make of
    the chunks the child writes and of its exit. *)
Definition process_output (events : list Event) : list Action :=
  omap (λ ev, match ev with
              | ProcStdout data | ProcStderr data => Some (Append data)
              | ProcExit code sig =>
                  Some (AppendLine ("The language server exited, code: "
                                      +:+ null_or pretty code
                                      +:+ ", signal: " +:+ null_or id sig))
              | _ => None
              end) events.

Definition closes (acts : list Action) : nat :=
  length (omap (λ a, match a with CloseServer => Some () | _ => None end) acts).

End LaunchLog.

Module AttachLog.
Import TcpAttach.

(** The registration [server.once("connection", connection_listener)] of
    the [n]-th call of the channel source. *)
Definition registration (n : nat) : EventEmitter.Registration ServerHandler :=
  {| EventEmitter.event := "connection";
     EventEmitter.is_once := true;
     EventEmitter.listener := connection_listener n |}.

(** The calls, numbered from [first], whose promise is pending. *)
Fixpoint pending_from (first : nat) (ps : list (Promise StreamInfo)) : list nat :=
  match ps with
  | [] => []
  | Pending :: ps => first :: pending_from (S first) ps
  | _ :: ps => pending_from (S first) ps
  end.

Definition pending_calls (ps : list (Promise StreamInfo)) : list nat :=
  pending_from 0 ps.

(** A client that starts, gets its connection, and starts again. *)
Definition sessions (sockets : list Socket) : list Event :=
  sockets ≫= λ socket, [Start; SrvConnection socket].

Definition connected (socket : Socket) : Promise StreamInfo :=
  Fulfilled {| reader := socket; writer := socket |}.

End AttachLog.

Module ActivationLog.
Import Activation.

Definition watchers (effects : list Effect) : list string :=
  omap (λ eff, match eff with CreateFileSystemWatcher g => Some g | _ => None end) effects.

Definition clients (effects : list Effect) : list (ServerOptions * string) :=
  omap (λ eff, match eff with NewLanguageClient o s => Some (o, s) | _ => None end) effects.

Definition client_starts (effects : list Effect) : nat :=
  length (omap (λ eff, match eff with ClientStart => Some () | _ => None end) effects).

Definition chmods (effects : list Effect) : list (string * Z) :=
  omap (λ eff, match eff with Chmod p m => Some (p, m) | _ => None end) effects.

Definition downloads (effects : list Effect) : list string :=
  omap (λ eff, match eff with DownloadServerIfNeeded d => Some d | _ => None end) effects.

(** Whether [TransportLayer[transportLayer] == undefined] holds for the
    configured value. *)
Definition unknown_transport (config : Config) : bool :=
  JS.is_undefined
    (JS.get TransportLayer_object (JS.property_key (languageServer_transport config))).

(** The failures an activation can meet, in the order it meets them. *)
Definition download_failure (host : Host) (config : Config) : option string :=
  if JS.truthy (languageServer_path config) then None else download_error host.

Definition mkdir_failure (host : Host) : option string :=
  if storage_exists host then None else mkdir_error host.

(** Reading [fsPath] of an undefined [storageUri], then [mkdir]. *)
Definition storage_failure (host : Host) : option string :=
  match storageUri host with
  | None => Some "TypeError"
  | Some _ => mkdir_failure host
  end.

(** [statSync], then [chmodSync], on a Unix-like system. *)
Definition script_failure (os : Platform) (host : Host) : option string :=
  if isOSUnixoid os then
    match stat_mode host with
    | inl e => Some e
    | inr _ => chmod_error host
    end
  else None.

Definition first_failure (os : Platform) (host : Host) (config : Config)
    : Completion KotlinApi :=
  match download_failure host config with
  | Some _ => ReturnUndefined
  | None =>
      match storage_failure host with
      | Some e => Throw e
      | None =>
          match script_failure os host with
          | Some e => Throw e
          | None =>
              match start_error host with
              | Some e => Throw e
              | None => Value new_KotlinApi
              end
          end
      end
  end.

(** The environment the stdio branch prepares before it calls
    [stdio_launch]. *)
Definition java_env (host : Host) : gmap string string :=
  let env := process_env host in
  let env := if JS.truthy (javaHome host)
             then <["JAVA_HOME" := JS.to_string (javaHome host)]> env else env in
  if JS.truthy (javaOpts host)
  then <["JAVA_OPTS" := JS.to_string (javaOpts host)]> env else env.

Definition debugConfig (config : Config) : TServerDebugConfig :=
  {| is_enabled := languageServer_debugAttach_enabled config;
     auto_suspend := languageServer_debugAttach_autoSuspend config;
     port := languageServer_debugAttach_port config |}.

(** The server options an activation ends up with: the stdio connector
    when the configured transport is unknown to the enum object, nothing
    otherwise. *)
Definition selected_options (host : Host) (config : Config) (path : string)
    : ServerOptions :=
  if unknown_transport config
  then stdio_launch (workspaceFolders host) path (java_env host) (debugConfig config)
  else NoServerOptions.

(** The effects of the stages of an activation, stage by stage. *)
Definition selector_effects (config : Config) : list Effect :=
  if unknown_transport config then
    [LogInfo ("Unknown transport layer: "
                +:+ JS.to_string (languageServer_transport config)
                +:+ ". Falling back to default: stdio");
     ConfigUpdate "languageServer.transport" "stdio"]
  else [].

Definition chmod_effects (os : Platform) (host : Host) (path : string) : list Effect :=
  if isOSUnixoid os then
    match stat_mode host with
    | inr mode => [Chmod path (Z.lor (Z.land mode 511) S_IXUSR)]
    | inl _ => []
    end
  else [].

Definition connector_effects (config : Config) : list Effect :=
  if unknown_transport config then [LogInfo "Connecting via Stdio."] else [].

Definition download_effects (os : Platform) (host : Host) (config : Config)
    : list Effect :=
  [LogInfo "Activating Kotlin Language Server...";
   StatusUpdate "Activating Kotlin Language Server..."]
  ++ (if JS.truthy (languageServer_path config) then []
      else [DownloadServerIfNeeded (langServerInstallDir os host)]).

Definition output_effects (os : Platform) (host : Host) (config : Config)
    : list Effect :=
  download_effects os host config
  ++ [CreateOutputChannel "Kotlin"; Subscribe "outputChannel"; StatusDispose].

Definition storage_effects (os : Platform) (host : Host) (config : Config)
    : list Effect :=
  output_effects os host config
  ++ (if storage_exists host then []
      else match storageUri host with
           | Some storagePath => [Mkdir storagePath]
           | None => []
           end).

End ActivationLog.

(** ** The [kotlin.overrideMember] command (lines 155-188)

    The types are those the callback uses of [OverrideMemberRequest]: a
    candidate has a [title] and an [edit] whose [changes] map a document URI
    to a list of text edits. Reading a property of [undefined] raises a
    [TypeError]. *)

Module OverrideMember.

Record Position := { line : nat; character : nat }.

Record Range := { range_start : Position; range_end : Position }.

Record TextEdit := { range : Range; newText : string }.

Record WorkspaceEdit := { changes : option (gmap string (list TextEdit)) }.

Record CodeAction := { title : string; edit : option WorkspaceEdit }.

Record QuickPickItem := { label : string; data : option (list TextEdit) }.

(** [vscode.window.activeTextEditor], as far as the callback reads it. *)
Record TextEditor := { document_uri : string; selection_start : Position }.

Inductive Effect :=
| SendRequest (uri : string) (position : Position)
| ShowWarningMessage (msg : string)
| ShowQuickPick (items : list QuickPickItem)
| ApplyEdit (inserts : list (Position * string)).

Inductive Completion :=
| Done
| TypeError
| RequestFailed (e : string).

(** [elem => ({ label: elem.title, data: elem.edit.changes[uri] })]. *)
Definition item_of (uri : string) (elem : CodeAction) : option QuickPickItem :=
  e ← edit elem;
  c ← changes e;
  Some {| label := title elem; data := c !! uri |}.

(** The body of [selected.forEach]: the insert built from [elem.data[0]]. *)
Definition insert_of (elem : QuickPickItem) : option (Position * string) :=
  d ← data elem;
  textEdit ← head d;
  Some (range_start (range textEdit), newText textEdit).

(** The callback. [response] is what the request settles with, [pick] what
    the user does with the quick pick ([None]: dismissed). *)
Definition command (activeEditor : option TextEditor)
    (response : string + list CodeAction)
    (pick : list QuickPickItem → option (list QuickPickItem))
    : list Effect * Completion :=
  match activeEditor with
  | None => ([], TypeError)
  | Some editor =>
      let uri := document_uri editor in
      let request := SendRequest uri (selection_start editor) in
      match response with
      | inl e => ([request], RequestFailed e)
      | inr overrideOptions =>
          if bool_decide (length overrideOptions = 0) then
            ([request; ShowWarningMessage "No overrides found for class"], Done)
          else
            match mapM (item_of uri) overrideOptions with
            | None => ([request], TypeError)
            | Some items =>
                match pick items with
                | None => ([request; ShowQuickPick items], TypeError)
                | Some selected =>
                    match mapM insert_of selected with
                    | None => ([request; ShowQuickPick items], TypeError)
                    | Some inserts =>
                        ([request; ShowQuickPick items; ApplyEdit inserts], Done)
                    end
                end
            end
      end
  end.

(** Inputs of the examples: an editor on [A.kt] and a candidate with two
    text edits for that document. *)
Definition example_editor : TextEditor :=
  {| document_uri := "file:///work/A.kt";
     selection_start := {| line := 3; character := 4 |} |}.

Definition example_edits : list TextEdit :=
  [ {| range := {| range_start := {| line := 5; character := 0 |};
                   range_end := {| line := 5; character := 0 |} |};
       newText := "override fun toString(): String = TODO()" |};
    {| range := {| range_start := {| line := 1; character := 0 |};
                   range_end := {| line := 1; character := 0 |} |};
       newText := "import kotlin.TODO" |} ].

Definition example_candidate : CodeAction :=
  {| title := "override fun toString(): String";
     edit := Some {| changes := Some {[ "file:///work/A.kt" := example_edits ]} |} |}.

Definition example_item : QuickPickItem :=
  {| label := "override fun toString(): String"; data := Some example_edits |}.

End OverrideMember.

(** * Properties *)

(** ** Strings *)

Lemma append_assoc (a b c : string) : (a +:+ b) +:+ c = a +:+ (b +:+ c).
Proof.
  induction a as [|ch a IH]; [done|].
  change (String ch ((a +:+ b) +:+ c) = String ch (a +:+ (b +:+ c))).
  by rewrite IH.
Qed.

Lemma append_empty_r (a : string) : a +:+ "" = a.
Proof.
  induction a as [|ch a IH]; [done|].
  change (String ch (a +:+ "") = String ch a). by rewrite IH.
Qed.

Lemma includes_end (before sub : string) : JS.includes (before +:+ sub) sub.
Proof. exists before, "". by rewrite append_empty_r. Qed.

(** ** Promises *)

Lemma reject_settled {A} (e : string) (errs : list string) :
  foldl (λ p e', reject e' p) (@Rejected A e) errs = Rejected e.
Proof. by induction errs. Qed.

(** ** Stdio connector *)

Lemma opts_suspend_flag (debugConfiguration : TServerDebugConfig) :
  JS.includes (KOTLIN_LANGUAGE_SERVER_OPTS debugConfiguration)
    (if auto_suspend debugConfiguration then "suspend=y" else "suspend=n").
Proof.
  unfold KOTLIN_LANGUAGE_SERVER_OPTS.
  set (address := pretty (port debugConfiguration)).
  pose (before := "-Xdebug -agentlib:jdwp=transport=dt_socket,address=" +:+ address
                    +:+ ",server=y,quiet=y,").
  destruct (auto_suspend debugConfiguration).
  - replace (_ +:+ _) with (before +:+ "suspend=y"); [apply includes_end|].
    unfold before. by rewrite !append_assoc.
  - replace (_ +:+ _) with (before +:+ "suspend=n"); [apply includes_end|].
    unfold before. by rewrite !append_assoc.
Qed.

Lemma opts_address (debugConfiguration : TServerDebugConfig) :
  JS.includes (KOTLIN_LANGUAGE_SERVER_OPTS debugConfiguration)
    ("address=" +:+ pretty (port debugConfiguration) +:+ ",").
Proof.
  unfold KOTLIN_LANGUAGE_SERVER_OPTS.
  exists "-Xdebug -agentlib:jdwp=transport=dt_socket,",
    ("server=y,quiet=y,suspend=" +:+
       (if auto_suspend debugConfiguration then "y" else "n")).
  by rewrite !append_assoc.
Qed.

(** C7. With debug attach enabled, the environment given to the stdio
    connector comes back with [KOTLIN_LANGUAGE_SERVER_OPTS] bound to the JDWP
    flag string, which names the configured port as the address and carries
    [suspend=y] when [auto_suspend] is set and [suspend=n] otherwise; nothing
    else in the environment changes. With debug attach disabled the
    environment comes back exactly as it was given. *)
Theorem stdio_launch_debug_env (folders : list string) (startPath : string)
    (env : gmap string string) (debugConfiguration : TServerDebugConfig) :
  ∃ env', options_env (stdio_launch folders startPath env debugConfiguration) = Some env' ∧
    if is_enabled debugConfiguration then
      ∃ opts, env' = <["KOTLIN_LANGUAGE_SERVER_OPTS" := opts]> env ∧
        env' !! "KOTLIN_LANGUAGE_SERVER_OPTS" = Some opts ∧
        JS.includes opts
          (if auto_suspend debugConfiguration then "suspend=y" else "suspend=n") ∧
        JS.includes opts ("address=" +:+ pretty (port debugConfiguration) +:+ ",")
    else env' = env.
Proof.
  exists (stdio_env env debugConfiguration). split; [done|].
  unfold stdio_env. destruct (is_enabled debugConfiguration); [|done].
  exists (KOTLIN_LANGUAGE_SERVER_OPTS debugConfiguration).
  split; [done|]. split; [by rewrite lookup_insert_eq|].
  split; [apply opts_suspend_flag | apply opts_address].
Qed.

(** The two values are told apart by the flag: for a concrete configuration
    the whole string is as follows. *)
Example opts_example :
  KOTLIN_LANGUAGE_SERVER_OPTS {| is_enabled := true; auto_suspend := false; port := 5005 |}
  = "-Xdebug -agentlib:jdwp=transport=dt_socket,address=5005,server=y,quiet=y,suspend=n".
Proof. reflexivity. Qed.

(** ** TCP launch connector *)

Section launch_facts.
Import TcpLaunch.
Variable startScriptPath : string.
Variable tcpPort : option N.

Local Abbreviation run := (TcpLaunch.run startScriptPath tcpPort).
Local Abbreviation step := (TcpLaunch.step startScriptPath tcpPort).

Local Abbreviation quiet := (TcpLaunch.quiet startScriptPath tcpPort).

Lemma launch_run_snoc (events : list Event) (ev : Event) :
  run (events ++ [ev]) = step (run events) ev.
Proof. apply foldl_snoc. Qed.

Lemma launch_run_app (pre post : list Event) :
  run (pre ++ post) = foldl step (run pre) post.
Proof. apply foldl_app. Qed.

Lemma bound_port_nonzero (assigned : positive) : bound_port tcpPort assigned ≠ 0%N.
Proof. unfold bound_port. by destruct tcpPort as [[|p]|]. Qed.

Ltac log_simpl :=
  unfold spawns, resolutions, listens, connections in *;
  rewrite ?omap_app; simpl; rewrite ?app_nil_r.

Lemma step_cases (st : State) (ev : Event) :
  (status st = Binding ∧ ∃ assigned, ev = SrvListening assigned ∧
     step st ev = on_listening startScriptPath (bound_port tcpPort assigned) st) ∨
  (is_listening (status st) = true ∧ ∃ socket, ev = SrvConnection socket ∧
     step st ev = on_connection socket st) ∨
  (is_live (status st) = true ∧ ∃ e, ev = SrvError e ∧ step st ev = on_error e st) ∨
  quiet st ev.
Proof.
  destruct ev as [a|s|e|d|d|c sg]; unfold quiet; simpl.
  - destruct (status st) eqn:Hst; [|left; eauto| |];
      right; right; right; rewrite ?Hst; log_simpl; by rewrite ?app_nil_r.
  - destruct (is_listening (status st)) eqn:Hst; [right; left; eauto|].
    by right; right; right.
  - destruct (is_live (status st)) eqn:Hst; [right; right; left; eauto|].
    right; right; right. by rewrite app_nil_r.
  - right; right; right. destruct (proc st); simpl; log_simpl; by rewrite ?app_nil_r.
  - right; right; right. destruct (proc st); simpl; log_simpl; by rewrite ?app_nil_r.
  - right; right; right. destruct (proc st); simpl; log_simpl; by rewrite ?app_nil_r.
Qed.

(** Once settled, the promise keeps its state. *)
Lemma promise_settled (st : State) (events : list Event) :
  promise st ≠ Pending → promise (foldl step st events) = promise st.
Proof.
  revert st. induction events as [|ev events IH]; intros st Hst; [done|].
  simpl. rewrite IH.
  - destruct (step_cases st ev) as [(_ & a & _ & ->)|[(_ & s & _ & ->)|[(_ & e & _ & ->)|Hq]]];
      simpl; try done.
    + by destruct (promise st).
    + by destruct (promise st).
    + apply Hq.
  - destruct (step_cases st ev) as [(_ & a & _ & ->)|[(_ & s & _ & ->)|[(_ & e & _ & ->)|Hq]]];
      simpl; try done.
    + by destruct (promise st).
    + by destruct (promise st).
    + by rewrite (proj1 (proj2 Hq)).
Qed.

Lemma listens_once (events : list Event) : listens (actions (run events)) = [tcpPort].
Proof.
  induction events as [|ev events IH] using rev_ind.
  { unfold TcpLaunch.run, tcp_launch. simpl. by destruct (valid_port tcpPort). }
  rewrite launch_run_snoc.
  destruct (step_cases (run events) ev)
    as [(_ & a & _ & ->)|[(_ & s & _ & ->)|[(_ & e & _ & ->)|Hq]]]; simpl.
  - log_simpl. exact IH.
  - log_simpl. exact IH.
  - log_simpl. exact IH.
  - destruct Hq as (_ & _ & _ & _ & _ & _ & ->). done.
Qed.

Lemma closed_stays (st : State) (ev : Event) :
  status st = Closed → quiet st ev.
Proof.
  intros Hst.
  destruct (step_cases st ev) as [(H & _)|[(H & _)|[(H & _)|Hq]]];
    [by rewrite Hst in H..|done].
Qed.

Lemma errors_snoc (events : list Event) (ev : Event) (e : string) :
  e ∈ errors events → e ∈ errors (events ++ [ev]).
Proof. unfold errors. rewrite omap_app, elem_of_app. by left. Qed.

(** With a port that [listen] refuses the server never binds: no event
    changes anything but the list of refused connection attempts. *)
Lemma launch_bad_port (events : list Event) :
  valid_port tcpPort = false →
  status (run events) = Idle ∧
  promise (run events) = Rejected "ERR_SOCKET_BAD_PORT" ∧
  proc (run events) = false ∧
  accepted (run events) = [] ∧
  refused (run events) = connections events ∧
  actions (run events) = [LogInfo "Creating server." []; Listen tcpPort].
Proof.
  intros Hv. induction events as [|ev events IH] using rev_ind.
  { unfold TcpLaunch.run, tcp_launch. simpl. by rewrite Hv. }
  rewrite launch_run_snoc. destruct IH as (Hst & Hp & Hproc & Hacc & Hrf & Hact).
  unfold connections. rewrite omap_app.
  destruct ev; simpl; rewrite ?Hst, ?Hproc; simpl; rewrite ?app_nil_r;
    split_and!; try done.
  by rewrite Hrf.
Qed.

(** While the OS has not answered and the listener has emitted no error,
    the server is binding and the connector has done nothing but call
    [listen]. *)
Lemma launch_binding (pre : list Event) :
  valid_port tcpPort = true → readies pre = [] → errors pre = [] →
  status (run pre) = Binding ∧
  promise (run pre) = Pending ∧
  proc (run pre) = false ∧
  accepted (run pre) = [] ∧
  refused (run pre) = connections pre ∧
  actions (run pre) = [LogInfo "Creating server." []; Listen tcpPort].
Proof.
  intros Hv. induction pre as [|ev pre IH] using rev_ind; intros Hr He.
  { unfold TcpLaunch.run, tcp_launch. simpl. by rewrite Hv. }
  unfold readies in Hr. unfold errors in He.
  rewrite omap_app in Hr. rewrite omap_app in He.
  apply app_eq_nil in Hr as [Hr Hr']. apply app_eq_nil in He as [He He'].
  destruct (IH Hr He) as (Hst & Hp & Hproc & Hacc & Hrf & Hact).
  rewrite launch_run_snoc. unfold connections. rewrite omap_app.
  destruct ev; simpl in Hr', He'; try done; simpl; rewrite ?Hst, ?Hproc; simpl;
    rewrite ?app_nil_r; split_and!; try done.
  by rewrite Hrf.
Qed.

(** While the server listens and no connection arrives it keeps listening;
    the promise is rejected by the first error the listener emits. *)
Lemma launch_listening (st : State) (mid : list Event) (port : N) :
  status st = Listening port → connections mid = [] →
  let st' := foldl step st mid in
  status st' = Listening port ∧
  promise st' = foldl (λ p e, reject e p) (promise st) (errors mid) ∧
  accepted st' = accepted st ∧
  refused st' = refused st ∧
  spawns (actions st') = spawns (actions st) ∧
  resolutions (actions st') = resolutions (actions st).
Proof.
  revert st. induction mid as [|ev mid IH]; intros st Hst Hc; [done|].
  destruct ev as [a|s|e|d|d|c sg]; simpl in Hc |- *; try done.
  - rewrite Hst. by apply IH.
  - rewrite Hst. simpl.
    destruct (IH (on_error e st)) as (H1 & H2 & H3 & H4 & H5 & H6);
      [by simpl; rewrite Hst|done|].
    split_and!; try done.
    + rewrite H5. simpl. log_simpl. done.
    + rewrite H6. simpl. log_simpl. done.
  - destruct (proc st); [|by apply IH].
    destruct (IH (output (Append d) st)) as (H1 & H2 & H3 & H4 & H5 & H6); [done..|].
    split_and!; try done.
    + rewrite H5. simpl. log_simpl. done.
    + rewrite H6. simpl. log_simpl. done.
  - destruct (proc st); [|by apply IH].
    destruct (IH (output (Append d) st)) as (H1 & H2 & H3 & H4 & H5 & H6); [done..|].
    split_and!; try done.
    + rewrite H5. simpl. log_simpl. done.
    + rewrite H6. simpl. log_simpl. done.
  - destruct (proc st); [|by apply IH].
    match goal with
    | |- context [foldl _ (output ?a st) mid] =>
        destruct (IH (output a st)) as (H1 & H2 & H3 & H4 & H5 & H6); [done..|]
    end.
    split_and!; try done.
    + rewrite H5. simpl. log_simpl. done.
    + rewrite H6. simpl. log_simpl. done.
Qed.

(** Once the listener is closed nothing changes any more, except that
    connection attempts are turned away. *)
Lemma launch_closed (st : State) (post : list Event) :
  status st = Closed →
  let st' := foldl step st post in
  status st' = Closed ∧
  promise st' = promise st ∧
  accepted st' = accepted st ∧
  refused st' = refused st ++ connections post ∧
  spawns (actions st') = spawns (actions st) ∧
  resolutions (actions st') = resolutions (actions st).
Proof.
  revert st. induction post as [|ev post IH]; intros st Hst; simpl.
  { by rewrite app_nil_r. }
  destruct (closed_stays st ev Hst) as (H1 & H2 & H3 & H4 & H5 & H6 & _).
  destruct (IH (step st ev)) as (K1 & K2 & K3 & K4 & K5 & K6); [congruence|].
  split_and!; try congruence.
  rewrite K4, H4, <- app_assoc. by destruct ev.
Qed.

(** Only a server that is still binding can become ready, so a process is
    spawned at most once. *)
Lemma launch_spawns_stable (st : State) (post : list Event) :
  status st ≠ Binding →
  spawns (actions (foldl step st post)) = spawns (actions st).
Proof.
  revert st. induction post as [|ev post IH]; intros st Hst; [done|]. simpl.
  destruct (step_cases st ev)
    as [(Hb & _)|[(_ & s & _ & Hstep)|[(_ & e & _ & Hstep)|Hq]]]; [done| | |].
  - rewrite IH; rewrite Hstep; [|done]. simpl. by log_simpl.
  - rewrite IH; rewrite Hstep; simpl; [|by destruct (status st)]. by log_simpl.
  - destruct Hq as (Hs & _ & _ & _ & Hsp & _). rewrite IH; [done|by rewrite Hs].
Qed.

Lemma launch_no_ready (events : list Event) :
  readies events = [] → spawns (actions (run events)) = [].
Proof.
  induction events as [|ev events IH] using rev_ind; intros Hr.
  { unfold TcpLaunch.run, tcp_launch. by destruct (valid_port tcpPort). }
  unfold readies in Hr. rewrite omap_app in Hr.
  apply app_eq_nil in Hr as [Hr Hr']. specialize (IH Hr).
  rewrite launch_run_snoc.
  destruct (step_cases (run events) ev)
    as [(_ & a & -> & _)|[(_ & s & _ & ->)|[(_ & e & _ & ->)|Hq]]]; [done| | |].
  - simpl. by log_simpl.
  - simpl. by log_simpl.
  - destruct Hq as (_ & _ & _ & _ & -> & _). done.
Qed.

(** Until a connection is accepted nothing resolves the promise; it is
    pending, or rejected with an error the listener emitted, or rejected
    because [listen] refused the port. *)
Lemma launch_before_accept (events : list Event) :
  status (run events) ≠ Closed →
  accepted (run events) = [] ∧
  resolutions (actions (run events)) = [] ∧
  (promise (run events) = Pending ∨
   (∃ e, e ∈ errors events ∧ promise (run events) = Rejected e) ∨
   (valid_port tcpPort = false ∧ status (run events) = Idle)).
Proof.
  destruct (valid_port tcpPort) eqn:Hv.
  2:{ destruct (launch_bad_port events Hv) as (Hst & _ & _ & Hacc & _ & Hact).
      intros _. rewrite Hact. split_and!; [done..|]. right. right. done. }
  induction events as [|ev events IH] using rev_ind.
  { unfold TcpLaunch.run, tcp_launch. simpl. rewrite Hv. by eauto. }
  rewrite launch_run_snoc. intros Hopen.
  destruct (decide (status (run events) = Closed)) as [Hc|Hc].
  { destruct (closed_stays (run events) ev Hc) as (Hst & _). congruence. }
  destruct (IH Hc) as (Hacc & Hres & Hp). clear IH.
  assert (promise (run events) = Pending ∨
          ∃ e, e ∈ errors events ∧ promise (run events) = Rejected e) as Hp'.
  { destruct Hp as [?|[?|(? & _)]]; [by left|by right|done]. }
  clear Hp.
  destruct (step_cases (run events) ev)
    as [(_ & a & _ & Hstep)|[(_ & s & _ & Hstep)|[(_ & e & -> & Hstep)|Hq]]].
  - rewrite Hstep. simpl. split_and!; [done|by log_simpl|].
    destruct Hp' as [?|(e & ? & ?)]; [by left|right; left; eauto using errors_snoc].
  - by rewrite Hstep in Hopen.
  - rewrite Hstep. simpl. split_and!; [done|by log_simpl|]. right. left.
    destruct Hp' as [->|(e0 & ? & ->)]; simpl; [|eauto using errors_snoc].
    exists e. split; [|done]. unfold errors. rewrite omap_app, elem_of_app.
    right. simpl. by apply list_elem_of_singleton.
  - destruct Hq as (_ & -> & -> & _ & _ & -> & _). split_and!; [done..|].
    destruct Hp' as [?|(e & ? & ?)]; [by left|right; left; eauto using errors_snoc].
Qed.

(** At most one connection is ever accepted, it closes the listener, and
    [resolve] is called once for it, with its socket as reader and as
    writer. *)
Lemma launch_accepts_once (events : list Event) :
  resolutions (actions (run events))
    = (λ s, {| reader := s; writer := s |}) <$> accepted (run events) ∧
  ((accepted (run events) = [] ∧ status (run events) ≠ Closed) ∨
   (∃ s, accepted (run events) = [s] ∧ status (run events) = Closed)).
Proof.
  induction events as [|ev events IH] using rev_ind.
  { unfold TcpLaunch.run, tcp_launch. simpl.
    destruct (valid_port tcpPort); simpl; (split; [done|by left]). }
  rewrite launch_run_snoc. destruct IH as (Hres & Hacc).
  destruct (step_cases (run events) ev)
    as [(Hb & a & _ & Hstep)|[(Hl & s & _ & Hstep)|[(Hl & e & _ & Hstep)|Hq]]].
  - rewrite Hstep. simpl. split; [by log_simpl|]. left.
    destruct Hacc as [(? & _)|(? & _ & Hc)]; [done|congruence].
  - rewrite Hstep. simpl. rewrite fmap_app. split; [log_simpl; by rewrite Hres|].
    right. exists s. destruct Hacc as [(-> & _)|(? & _ & Hc)]; [done|].
    by rewrite Hc in Hl.
  - rewrite Hstep. simpl. split; [by log_simpl|].
    destruct Hacc as [(? & ?)|(? & _ & Hc)]; [|by rewrite Hc in Hl].
    left. split; [done|]. by destruct (status (run events)).
  - destruct Hq as (-> & _ & -> & _ & _ & -> & _). done.
Qed.

(** C4. The language server is spawned only after the listener is ready:
    as long as the OS has not reported the socket bound, nothing has been
    spawned. When [listen] accepted the port, the listener has emitted no
    error and the OS reports the socket bound for the first time, then
    [listen] has been called once, with the configured port, the listener
    is bound to [bound_port], and the start script is spawned
    with the two arguments [--tcpClientPort] and that port in decimal, and
    with no options; it is the only process spawned, whatever happens
    next. The bound port is the requested one when that is not 0, else the
    one the OS assigned, and never 0. *)
Theorem tcp_launch_spawns_with_bound_port :
  (∀ events, readies events = [] → spawns (actions (run events)) = []) ∧
  (∀ pre assigned post,
      valid_port tcpPort = true → readies pre = [] → errors pre = [] →
      let port := bound_port tcpPort assigned in
      let ready := run (pre ++ [SrvListening assigned]) in
      let st := run (pre ++ SrvListening assigned :: post) in
      listens (actions (run pre)) = [tcpPort] ∧
      spawns (actions (run pre)) = [] ∧
      status ready = Listening port ∧
      spawns (actions ready)
        = [(startScriptPath, ["--tcpClientPort"; pretty port], None)] ∧
      spawns (actions st)
        = [(startScriptPath, ["--tcpClientPort"; pretty port], None)] ∧
      port ≠ 0%N ∧
      (∀ p, tcpPort = Some (Npos p) → port = Npos p) ∧
      (tcpPort = None ∨ tcpPort = Some 0%N → port = Npos assigned)).
Proof.
  split; [apply launch_no_ready|].
  intros pre assigned post Hv Hr He port ready st.
  destruct (launch_binding pre Hv Hr He) as (Hst & _ & _ & _ & _ & Hact).
  assert (ready = on_listening startScriptPath port (run pre)) as Hready.
  { unfold ready. rewrite launch_run_snoc. simpl. by rewrite Hst. }
  assert (spawns (actions ready)
          = [(startScriptPath, ["--tcpClientPort"; pretty port], None)]) as Hsp.
  { rewrite Hready. simpl. by rewrite Hact. }
  split_and!.
  - apply listens_once.
  - by rewrite Hact.
  - by rewrite Hready.
  - done.
  - unfold st.
    change (SrvListening assigned :: post) with ([SrvListening assigned] ++ post).
    rewrite app_assoc, launch_run_app. fold ready.
    rewrite launch_spawns_stable; [done|]. by rewrite Hready.
  - apply bound_port_nonzero.
  - intros p ->. done.
  - intros [->| ->]; done.
Qed.

(** C3. At most one connection is ever accepted, and [resolve] is called
    once for each accepted connection, with its socket as reader and as
    writer. When [listen] accepted the port and the listener became ready
    without an error, the first connection that arrives finds it
    listening: the listener is closed, that connection stays the only one
    accepted, every other connection attempt is refused, and [resolve] is
    called exactly once, with that socket. The promise is fulfilled with
    that stream if the listener emitted no error while it was listening;
    otherwise the promise stays rejected with the first such error. *)
Theorem tcp_launch_first_socket_wins :
  (∀ events,
      (length (accepted (run events)) ≤ 1)%nat ∧
      resolutions (actions (run events))
        = (λ s, {| reader := s; writer := s |}) <$> accepted (run events)) ∧
  (∀ pre assigned mid socket post,
      valid_port tcpPort = true → readies pre = [] → errors pre = [] →
      connections mid = [] →
      let before := run (pre ++ SrvListening assigned :: mid) in
      let st := run (pre ++ SrvListening assigned :: mid
                         ++ SrvConnection socket :: post) in
      let info := {| reader := socket; writer := socket |} in
      status before = Listening (bound_port tcpPort assigned) ∧
      accepted before = [] ∧
      status st = Closed ∧
      accepted st = [socket] ∧
      refused st = connections pre ++ connections post ∧
      resolutions (actions st) = [info] ∧
      (errors mid = [] → promise st = Fulfilled info) ∧
      (∀ e rest, errors mid = e :: rest → promise st = Rejected e)).
Proof.
  split.
  { intros events. destruct (launch_accepts_once events) as (Hres & Hacc).
    split; [|done]. by destruct Hacc as [(-> & _)|(s & -> & _)]; simpl; lia. }
  intros pre assigned mid socket post Hv Hr He Hc before st info.
  destruct (launch_binding pre Hv Hr He) as (Hst & Hp & _ & Hacc & Hrf & Hact).
  pose (ready := on_listening startScriptPath (bound_port tcpPort assigned) (run pre)).
  assert (before = foldl step ready mid) as Hbefore.
  { unfold before. rewrite launch_run_app. simpl. by rewrite Hst. }
  destruct (launch_listening ready mid (bound_port tcpPort assigned) eq_refl Hc)
    as (L1 & L2 & L3 & L4 & _ & L6).
  rewrite <- Hbefore in L1, L2, L3, L4, L6. simpl in L2, L3, L4, L6.
  rewrite Hp in L2. rewrite Hacc in L3. rewrite Hrf in L4. rewrite Hact in L6.
  assert (st = foldl step (on_connection socket before) post) as Hstate.
  { unfold st.
    replace (pre ++ SrvListening assigned :: mid ++ SrvConnection socket :: post)
      with ((pre ++ SrvListening assigned :: mid) ++ SrvConnection socket :: post)
      by (by rewrite <- app_assoc).
    rewrite launch_run_app. fold before. simpl. by rewrite L1. }
  destruct (launch_closed (on_connection socket before) post eq_refl)
    as (K1 & K2 & K3 & K4 & _ & K6).
  rewrite <- Hstate in K1, K2, K3, K4, K6. simpl in K2, K3, K4, K6.
  split_and!; try done.
  - by rewrite K3, L3.
  - by rewrite K4, L4.
  - rewrite K6. log_simpl. by rewrite L6.
  - intros Hnone. rewrite K2, L2, Hnone. done.
  - intros e rest Hsome. rewrite K2, L2, Hsome. simpl.
    by rewrite reject_settled.
Qed.

(** C8. If the listener emits an error while it is binding or listening,
    and it is the first error it emits, then no connection has been
    accepted so far, the promise is rejected with that error and stays so
    whatever happens next (it is never fulfilled), and the connector has
    called [listen] only once: the failure is not retried. *)
Theorem tcp_launch_listener_error (pre post : list Event) (e : string) :
  is_live (status (run pre)) = true →
  errors pre = [] →
  let st := run (pre ++ SrvError e :: post) in
  accepted (run pre) = [] ∧
  promise st = Rejected e ∧
  (∀ info, promise st ≠ Fulfilled info) ∧
  listens (actions st) = [tcpPort].
Proof.
  intros Hlive Hfirst st.
  assert (status (run pre) ≠ Closed) as Hopen by (by destruct (status (run pre))).
  destruct (launch_before_accept pre Hopen) as (Hacc & _ & Hp).
  assert (promise (run pre) = Pending) as Hpending.
  { destruct Hp as [?|[(e0 & He0 & _)|(Hv & _)]]; [done| |].
    - rewrite Hfirst in He0. by apply not_elem_of_nil in He0.
    - destruct (launch_bad_port pre Hv) as (Hidle & _). by rewrite Hidle in Hlive. }
  assert (promise st = Rejected e) as Hst.
  { unfold st. rewrite launch_run_app. simpl. rewrite promise_settled.
    - rewrite Hlive. simpl. by rewrite Hpending.
    - rewrite Hlive. simpl. by rewrite Hpending. }
  split_and!; [done|done| |apply listens_once].
  intros info. by rewrite Hst.
Qed.

(** Every process the connector spawns is spawned without an options
    object, hence without an [env]. *)
Lemma tcp_launch_spawns_without_env (events : list Event) :
  Forall (λ call, call.2 = None) (spawns (actions (run events))).
Proof.
  induction events as [|ev events IH] using rev_ind.
  { unfold TcpLaunch.run, tcp_launch. by destruct (valid_port tcpPort); constructor. }
  rewrite launch_run_snoc.
  destruct (step_cases (run events) ev)
    as [(_ & a & _ & ->)|[(_ & s & _ & ->)|[(_ & e & _ & ->)|Hq]]]; simpl.
  - log_simpl. apply Forall_app. split; [done|]. by repeat constructor.
  - by log_simpl.
  - by log_simpl.
  - destruct Hq as (_ & _ & _ & _ & -> & _). done.
Qed.

End launch_facts.

Lemma tcp_launch_listener_error_witness :
  is_live (TcpLaunch.status (TcpLaunch.run "/opt/kls/bin/kotlin-language-server"
                               (Some 8080%N) [])) = true ∧
  TcpLaunch.errors [] = [] ∧
  TcpLaunch.promise
    (TcpLaunch.run "/opt/kls/bin/kotlin-language-server" (Some 8080%N)
       ([] ++ TcpLaunch.SrvError "EADDRINUSE" :: [TcpLaunch.SrvConnection 1]))
  = Rejected "EADDRINUSE".
Proof.
  split; [reflexivity|]. split; [reflexivity|].
  apply (tcp_launch_listener_error "/opt/kls/bin/kotlin-language-server"
           (Some 8080%N) [] [TcpLaunch.SrvConnection 1] "EADDRINUSE");
    reflexivity.
Defined.

Lemma tcp_launch_spawns_with_bound_port_witness :
  valid_port None = true ∧
  TcpLaunch.readies [TcpLaunch.SrvConnection 3] = [] ∧
  TcpLaunch.errors [TcpLaunch.SrvConnection 3] = [] ∧
  TcpLaunch.spawns
    (TcpLaunch.actions
       (TcpLaunch.run "/opt/kls/bin/kotlin-language-server" None
          ([TcpLaunch.SrvConnection 3]
             ++ TcpLaunch.SrvListening 49152
                  :: [TcpLaunch.ProcStdout "ready"; TcpLaunch.SrvConnection 7;
                      TcpLaunch.SrvListening 1])))
  = [("/opt/kls/bin/kotlin-language-server", ["--tcpClientPort"; "49152"], None)].
Proof.
  split; [reflexivity|]. split; [reflexivity|]. split; [reflexivity|].
  destruct (proj2 (tcp_launch_spawns_with_bound_port
                     "/opt/kls/bin/kotlin-language-server" None)
              [TcpLaunch.SrvConnection 3] 49152%positive
              [TcpLaunch.ProcStdout "ready"; TcpLaunch.SrvConnection 7;
               TcpLaunch.SrvListening 1]
              eq_refl eq_refl eq_refl)
    as (_ & _ & _ & _ & Hspawn & _).
  exact Hspawn.
Defined.

Lemma tcp_launch_first_socket_wins_witness :
  let st :=
    TcpLaunch.run "/opt/kls/bin/kotlin-language-server" (Some 8080%N)
      ([TcpLaunch.SrvConnection 3]
         ++ TcpLaunch.SrvListening 8080
              :: [TcpLaunch.ProcStdout "starting"]
              ++ TcpLaunch.SrvConnection 7 :: [TcpLaunch.SrvConnection 9]) in
  valid_port (Some 8080%N) = true ∧
  TcpLaunch.connections [TcpLaunch.ProcStdout "starting"] = [] ∧
  TcpLaunch.accepted st = [7] ∧
  TcpLaunch.refused st = [3; 9] ∧
  TcpLaunch.promise st = Fulfilled {| reader := 7; writer := 7 |}.
Proof.
  intros st. split; [reflexivity|]. split; [reflexivity|].
  destruct (proj2 (tcp_launch_first_socket_wins
                     "/opt/kls/bin/kotlin-language-server" (Some 8080%N))
              [TcpLaunch.SrvConnection 3] 8080%positive
              [TcpLaunch.ProcStdout "starting"] 7 [TcpLaunch.SrvConnection 9]
              eq_refl eq_refl eq_refl eq_refl)
    as (_ & _ & _ & Haccepted & Hrefused & _ & Hfulfilled & _).
  split; [exact Haccepted|]. split; [exact Hrefused|].
  exact (Hfulfilled eq_refl).
Defined.

(** C3, refuted as stated. The listener is ready, emits an error and then
    receives its first connection: the connection is accepted, the
    listener is closed and [resolve] is called with the socket, but the
    promise is not resolved with it; it stays rejected with the error. *)
Lemma tcp_launch_connection_after_error :
  let st :=
    TcpLaunch.run "/opt/kls/bin/kotlin-language-server" None
      [TcpLaunch.SrvListening 49152; TcpLaunch.SrvError "EMFILE";
       TcpLaunch.SrvConnection 7] in
  TcpLaunch.accepted st = [7] ∧
  TcpLaunch.status st = Closed ∧
  TcpLaunch.resolutions (TcpLaunch.actions st) = [{| reader := 7; writer := 7 |}] ∧
  TcpLaunch.promise st = Rejected "EMFILE" ∧
  TcpLaunch.promise st ≠ Fulfilled {| reader := 7; writer := 7 |}.
Proof. intros st. by split_and!. Qed.

(** With the port left to the OS, the script is given the assigned port. *)
Example tcp_launch_random_port :
  TcpLaunch.spawns
    (TcpLaunch.actions
       (TcpLaunch.run "/opt/kls/bin/kotlin-language-server" None
          [TcpLaunch.SrvListening 49152; TcpLaunch.SrvConnection 1]))
  = [("/opt/kls/bin/kotlin-language-server", ["--tcpClientPort"; "49152"], None)].
Proof. reflexivity. Qed.

(** ** TCP attach connector *)

Lemma removeAllListeners_other {H : Type} (em : EventEmitter.t H) :
  EventEmitter.listeners "connection" (EventEmitter.removeAllListeners "connect" em)
  = EventEmitter.listeners "connection" em.
Proof.
  unfold EventEmitter.listeners, EventEmitter.removeAllListeners.
  induction em as [|r em IH]; [done|]. simpl.
  unfold EventEmitter.registered in *.
  repeat case_bool_decide; simpl; repeat case_bool_decide; simpl;
    rewrite ?IH; congruence.
Qed.

Section attach_facts.
Import TcpAttach.
Variable tcpPort : option N.

Local Abbreviation run := (TcpAttach.run tcpPort).
Local Abbreviation step := (TcpAttach.step tcpPort).

Lemma attach_run_snoc (events : list Event) (ev : Event) :
  run (events ++ [ev]) = step (run events) ev.
Proof. apply foldl_snoc. Qed.

Lemma attach_run_app (pre post : list Event) :
  run (pre ++ post) = foldl step (run pre) post.
Proof. apply foldl_app. Qed.

(** Each call of the channel source adds a waiting registration and
    removes none. *)
Lemma channel_source_waiting (st : State) :
  waiting (channel_source st) = S (waiting st).
Proof.
  unfold waiting, channel_source, EventEmitter.listenerCount, EventEmitter.once. simpl.
  pose proof (removeAllListeners_other (server st)) as Hsame.
  unfold EventEmitter.listeners in *.
  rewrite List.filter_app, length_app, Hsame. simpl. lia.
Qed.

Lemma restarts_accumulate (st : State) (n : nat) :
  waiting (foldl step st (replicate n Start)) = n + waiting st.
Proof.
  revert st. induction n as [|n IH]; intros st; [done|].
  simpl. rewrite IH, channel_source_waiting. lia.
Qed.

(** C2. Two starts of the client with no connection in between leave two
    registrations waiting on ['connection']: the cleanup at the start of
    the second call removes the listeners of ['connect'], an event under
    which nothing is ever registered. The next connection then runs both
    listeners, and the channel of the abandoned first call is resolved with
    the very socket the second call gets. *)
Theorem tcp_attach_restart_keeps_stale_listener (assigned : positive) (socket : Socket) :
  let st := run [SrvListening assigned; Start; Start] in
  waiting st = 2 ∧
  promises st = [Pending; Pending] ∧
  promises (step st (SrvConnection socket))
    = [Fulfilled {| reader := socket; writer := socket |};
       Fulfilled {| reader := socket; writer := socket |}].
Proof. done. Qed.

(** The callbacks of the server only ever resolve. *)
Lemma emit_server_frame (ev : string) (socket : Socket) (st : State) :
  status (emit_server ev socket st) = status st ∧
  length (promises (emit_server ev socket st)) = length (promises st) ∧
  (Forall pending_or_connected (promises st) →
   Forall pending_or_connected (promises (emit_server ev socket st))).
Proof.
  unfold emit_server. generalize (EventEmitter.listeners ev (server st)) as l.
  intros l. revert st. induction l as [|r l IH]; intros st; [done|].
  simpl. match goal with |- context [foldl _ ?s l] => destruct (IH s) as (-> & -> & Hall) end.
  destruct (EventEmitter.listener r) as [n].
  destruct (EventEmitter.is_once r); simpl; rewrite length_alter;
    (split_and!; [done..|]); intros Hst; apply Hall; simpl;
    (apply Forall_alter; [done|]); intros p _ [->|[s ->]]; simpl;
    unfold pending_or_connected; eauto.
Qed.

Lemma emit_socket_frame (socket : Socket) (ev : string) (st : State) :
  status (emit_socket socket ev st) = status st ∧
  promises (emit_socket socket ev st) = promises st.
Proof.
  unfold emit_socket.
  generalize (EventEmitter.listeners ev (socket_emitter socket st)) as l.
  intros l. revert st. induction l as [|r l IH]; intros st; [done|].
  simpl. match goal with |- context [foldl _ ?s l] => destruct (IH s) as (-> & ->) end.
  destruct (EventEmitter.listener r) as [n]. by destruct (EventEmitter.is_once r).
Qed.

Lemma attach_step_promises (st : State) (ev : Event) :
  length (promises (step st ev)) = length (promises st) + starts [ev] ∧
  (Forall pending_or_connected (promises st) →
   Forall pending_or_connected (promises (step st ev))).
Proof.
  destruct ev as [|a|s|e|s]; unfold starts; simpl.
  - rewrite length_app. simpl. split; [done|]. intros Hst.
    apply Forall_app. split; [done|]. repeat constructor.
  - destruct (status st); simpl; split; (done || lia).
  - destruct (is_listening (status st)); [|split; (done || lia)].
    destruct (emit_server_frame "connection" s st) as (_ & -> & ?). split; [lia|done].
  - destruct (is_live (status st)); [|split; (done || lia)].
    simpl. destruct (EventEmitter.listenerCount _ _); simpl; split; (done || lia).
  - destruct (emit_socket_frame s "close" st) as (_ & ->). split; (done || lia).
Qed.

(** A server that has not come to listen resolves nothing. *)
Lemma attach_step_unbound (st : State) (ev : Event) :
  status (step st ev) = Binding ∨ status (step st ev) = Idle →
  (status st = Binding ∨ status st = Idle) ∧
  (Forall (λ p, p = Pending) (promises st) →
   Forall (λ p, p = Pending) (promises (step st ev))).
Proof.
  destruct ev as [|a|s|e|s]; simpl.
  - intros Hst. split; [done|]. intros Hall. apply Forall_app. by split; [|repeat constructor].
  - destruct (status st) eqn:Hs; simpl; rewrite ?Hs; intros [?|?]; try done; eauto.
  - destruct (is_listening (status st)) eqn:Hl; [|by eauto].
    destruct (emit_server_frame "connection" s st) as (-> & _).
    destruct (status st); by intros [?|?].
  - destruct (is_live (status st)) eqn:Hl; [|by eauto].
    assert (∀ st', status st' = after_error (status st) → promises st' = promises st →
              (status st' = Binding ∨ status st' = Idle) →
              (status st = Binding ∨ status st = Idle) ∧
              (Forall (λ p, p = Pending) (promises st) →
               Forall (λ p, p = Pending) (promises st'))) as Haux.
    { intros st' Hs -> Hb. split; [|done]. rewrite Hs in Hb.
      destruct (status st); simpl in *; destruct Hb; eauto; done. }
    simpl. destruct (EventEmitter.listenerCount _ _); by apply Haux.
  - destruct (emit_socket_frame s "close" st) as (-> & ->). eauto.
Qed.

Lemma attach_unbound (events : list Event) :
  status (run events) = Binding ∨ status (run events) = Idle →
  Forall (λ p, p = Pending) (promises (run events)).
Proof.
  induction events as [|ev events IH] using rev_ind; [by constructor|].
  rewrite attach_run_snoc. intros Hst.
  destruct (attach_step_unbound _ _ Hst) as (Hprev & Hall). eauto.
Qed.

Lemma idle_stays (st : State) (events : list Event) :
  status st = Idle → status (foldl step st events) = Idle.
Proof.
  revert st. induction events as [|ev events IH]; intros st Hst; [done|].
  simpl. apply IH. destruct ev as [|a|s|e|s]; simpl; rewrite ?Hst; simpl; try done.
  by destruct (emit_socket_frame s "close" st) as (-> & _).
Qed.

(** C10. However the connector is driven, every call of the channel source
    has its own promise, and each of them is pending or fulfilled with a
    socket as reader and writer: none is ever rejected. In particular, when
    the bind of the listening socket fails, the server never listens and
    every promise, of calls made before or after the failure, stays
    pending. *)
Theorem tcp_attach_never_rejects (events : list Event) :
  let st := run events in
  length (promises st) = starts events ∧
  Forall pending_or_connected (promises st) ∧
  (∀ e, Rejected e ∉ promises st) ∧
  (∀ pre e post,
      events = pre ++ SrvError e :: post →
      status (run pre) = Binding →
      status st = Idle ∧ Forall (λ p, p = Pending) (promises st)).
Proof.
  simpl.
  assert (length (promises (run events)) = starts events ∧
          Forall pending_or_connected (promises (run events))) as [Hlen Hall].
  { induction events as [|ev events [IHlen IHall]] using rev_ind; [by split|].
    rewrite attach_run_snoc.
    destruct (attach_step_promises (run events) ev) as (-> & Hall).
    split; [|by apply Hall]. rewrite IHlen. unfold starts.
    by rewrite omap_app, length_app. }
  split_and!; [done|done| |].
  - intros e He. rewrite Forall_forall in Hall.
    by destruct (Hall _ He) as [?|[s ?]].
  - intros pre e post -> Hpre.
    assert (status (run (pre ++ SrvError e :: post)) = Idle) as Hidle.
    { rewrite attach_run_app. simpl. apply idle_stays.
      rewrite Hpre. simpl. by destruct (EventEmitter.listenerCount _ _). }
    split; [done|]. apply attach_unbound. by right.
Qed.

End attach_facts.

Lemma tcp_attach_never_rejects_witness :
  TcpAttach.status (TcpAttach.run (Some 9999%N) [TcpAttach.Start]) = Binding ∧
  Forall (λ p, p = Pending)
    (TcpAttach.promises
       (TcpAttach.run (Some 9999%N)
          [TcpAttach.Start; TcpAttach.SrvError "EADDRINUSE";
           TcpAttach.Start; TcpAttach.SrvConnection 3])).
Proof.
  split; [reflexivity|].
  apply (tcp_attach_never_rejects (Some 9999%N)
           [TcpAttach.Start; TcpAttach.SrvError "EADDRINUSE";
            TcpAttach.Start; TcpAttach.SrvConnection 3])
    with (pre := [TcpAttach.Start]) (e := "EADDRINUSE")
         (post := [TcpAttach.Start; TcpAttach.SrvConnection 3]);
    reflexivity.
Defined.

(** ** Activation *)

Section activation_facts.
Import Activation.
Variable os : Platform.
Variable host : Host.

(** C1. Configured with the value of any of the four enum members, the
    selector treats the value as unknown: it logs the fallback, writes
    [stdio] back to the configuration and continues with [stdio]. The
    enum object is indexed by member name, and no member is named by its
    value. *)
Theorem transport_selector_falls_back_on_enum_values
    (config : Config) (t : TransportLayer) :
  transport_selector (with_transport (Some (TransportLayer_value t)) config)
  = ([LogInfo ("Unknown transport layer: " +:+ TransportLayer_value t
                 +:+ ". Falling back to default: stdio");
      ConfigUpdate "languageServer.transport" "stdio"],
     Value (Some "stdio")).
Proof. by destruct t. Qed.

(** What the selector does in general: it either falls back to [stdio]
    with one write, or keeps a value under which the enum object has a
    property, and writes nothing. *)
Lemma transport_selector_cases (config : Config) :
  let r := transport_selector config in
  (r.2 = Value (Some "stdio") ∧
   config_writes r.1 = [("languageServer.transport", "stdio")] ∧
   JS.get TransportLayer_object (JS.property_key (languageServer_transport config))
     = JS.Undefined) ∨
  (r.2 = Value (languageServer_transport config) ∧
   config_writes r.1 = [] ∧
   JS.get TransportLayer_object (JS.property_key (languageServer_transport config))
     ≠ JS.Undefined).
Proof.
  unfold transport_selector.
  destruct (JS.get _ _) eqn:Hget; simpl; [by left|by right..].
Qed.

(** No configuration selects a TCP connector: a value that survives the
    selector is a property name of the enum object, and none of those is
    [tcp], [tcp-random] or [tcp-attach]. *)
Lemma serverOptions_never_tcp (config : Config) (path : string) (options : ServerOptions) :
  (serverOptions os host config path).2 = Value options →
  (∃ cwd env, options = Executable path [] cwd env) ∨ options = NoServerOptions.
Proof.
  unfold serverOptions, transport_selector.
  destruct (JS.is_undefined _) eqn:Hget; simpl.
  - destruct (isOSUnixoid os); simpl;
      [destruct (stat_mode host); simpl; [|destruct (chmod_error host); simpl]|];
      intros [= <-]; left; eauto.
  - destruct (languageServer_transport config) as [raw|]; [|done].
    unfold is_layer.
    assert (∀ t, bool_decide (Some raw = Some (TransportLayer_value t)) = false) as Hno.
    { intros t. apply bool_decide_eq_false_2. intros [= ->]. by destruct t. }
    rewrite !Hno. simpl.
    destruct (isOSUnixoid os); simpl;
      [destruct (stat_mode host); simpl; [|destruct (chmod_error host); simpl]|];
      intros [= <-]; by right.
Qed.

(** *** Sequencing *)

Lemma reaches_final {A} (final : Act A) : reaches final final.
Proof. right. by exists []. Qed.

Lemma reaches_bind {A B} (final : Act B) (m : Act A) (f : A → Act B) :
  Forall is_setup m.1 →
  (∀ a, m.2 = Value a → reaches final (f a)) →
  reaches final (m ≫= f).
Proof.
  intros Hm Hf. destruct m as [effects [a| |e]]; simpl in *.
  - destruct (Hf a eq_refl) as [[Hall Hstop]|(pre & Hall & Heff & Hres)].
    + left. unfold mbind, Act_bind. simpl. split; [by apply Forall_app|done].
    + right. exists (effects ++ pre). unfold mbind, Act_bind. simpl.
      split; [by apply Forall_app|]. by rewrite Heff, app_assoc.
  - left. by unfold mbind, Act_bind.
  - left. by unfold mbind, Act_bind.
Qed.

Lemma reaches_emit {B} (final : Act B) (eff : Effect) (k : Act B) :
  is_setup eff → reaches final k → reaches final (emit eff;; k).
Proof.
  intros Heff Hk. apply reaches_bind; [by repeat constructor|]. by intros _ _.
Qed.

Lemma setup_bind {A B} (m : Act A) (f : A → Act B) :
  Forall is_setup m.1 → (∀ a, Forall is_setup (f a).1) →
  Forall is_setup (m ≫= f).1.
Proof.
  intros Hm Hf. unfold mbind, Act_bind.
  destruct m as [effects [a| |e]]; simpl in *; [by apply Forall_app|done..].
Qed.

Ltac setup :=
  repeat match goal with
    | |- Forall is_setup (_ ≫= _).1 => apply setup_bind; [|intros ?]
    | |- Forall is_setup (when _ _).1 => unfold when
    | |- Forall is_setup (match ?x with _ => _ end).1 => destruct x
    | |- _ => by repeat constructor
    end.

Lemma serverOptions_setup (config : Config) (path : string) :
  Forall is_setup (serverOptions os host config path).1.
Proof. unfold serverOptions, transport_selector. cbv zeta. setup. Qed.

Lemma createLanguageClient_setup (options : ServerOptions) (storagePath : string)
    (patterns : list string) :
  Forall is_setup (createLanguageClient options storagePath patterns).1.
Proof.
  unfold createLanguageClient. apply setup_bind; [|by repeat constructor].
  induction patterns as [|p ps IH]; [by constructor|].
  simpl. constructor; [done|exact IH].
Qed.

Lemma activation_reaches (config : Config) :
  reaches (start_and_register os host config) (activateLanguageServer os host config).
Proof.
  unfold activateLanguageServer.
  do 2 (apply reaches_emit; [done|]).
  apply reaches_bind; [setup|].
  intros _ _. do 3 (apply reaches_emit; [done|]).
  apply reaches_bind; [setup|].
  intros storagePath _. apply reaches_bind; [setup|].
  intros _ _. apply reaches_bind; [apply serverOptions_setup|].
  intros options _. apply reaches_bind; [apply createLanguageClient_setup|].
  intros _ _. apply reaches_final.
Qed.

Ltac list_cases H :=
  repeat (apply elem_of_cons in H as [H|H]; [discriminate H|]);
  by apply elem_of_nil in H.

Lemma registered_after_setup (command : string) (sends : option LspExtension)
    (pre final : list Effect) :
  Forall is_setup pre →
  RegisterCommand command sends ∈ pre ++ final ↔ RegisterCommand command sends ∈ final.
Proof.
  intros Hpre. split; intros Hin.
  - apply elem_of_app in Hin as [Hin|Hin]; [|done].
    rewrite Forall_forall in Hpre. by destruct (Hpre _ Hin).
  - apply elem_of_app. by right.
Qed.

Lemma wired_after_setup (ext : LspExtension) (pre final : list Effect) :
  Forall is_setup pre → wired ext (pre ++ final) ↔ wired ext final.
Proof.
  intros Hpre. unfold wired. split; intros [command Hin]; exists command.
  - by apply (registered_after_setup _ _ pre).
  - by apply registered_after_setup.
Qed.

Ltac command_cases H :=
  repeat (apply elem_of_cons in H as [H|H];
          [first [discriminate H|injection H as <- <-; auto]|]);
  by apply elem_of_nil in H.

(** C5, as the code has it. In every activation that starts a client the
    command [kotlin.overrideMember], which sends the override-member
    request, is registered, whatever [languageServer.path] is; the command
    [kotlin.resolveMain], which sends the main-class request, is registered
    exactly when the debug adapter is enabled and the path of the start
    script (the custom path when one is set, the managed script otherwise)
    ends in [kotlin-language-server]. No other command sends a protocol
    extension, so the override-member request is always wired and the
    main-class request is wired under that same condition. *)
Theorem extensions_wired (config : Config) :
  let effects := (activateLanguageServer os host config).1 in
  let uses_standard_server :=
    debugAdapter_enabled config
    && JS.endsWith (startScriptPath os host config) "kotlin-language-server" in
  starts_client effects →
  RegisterCommand "kotlin.overrideMember" (Some OverrideMemberRequest) ∈ effects ∧
  (RegisterCommand "kotlin.resolveMain" (Some MainClassRequest) ∈ effects
     ↔ uses_standard_server = true) ∧
  (∀ command ext,
      RegisterCommand command (Some ext) ∈ effects →
      (command = "kotlin.overrideMember" ∧ ext = OverrideMemberRequest) ∨
      (command = "kotlin.resolveMain" ∧ ext = MainClassRequest)) ∧
  wired OverrideMemberRequest effects ∧
  (wired MainClassRequest effects ↔ uses_standard_server = true).
Proof.
  intros effects uses_standard_server Hstart.
  unfold effects, uses_standard_server in *. clear effects uses_standard_server.
  destruct (activation_reaches config) as [[Hall _]|(pre & Hpre & Heff & _)].
  { rewrite Forall_forall in Hall. by destruct (Hall _ Hstart). }
  rewrite Heff, !wired_after_setup, !registered_after_setup by done.
  assert (∀ command ext,
             RegisterCommand command (Some ext) ∈ pre ++ (start_and_register os host config).1
             ↔ RegisterCommand command (Some ext) ∈ (start_and_register os host config).1)
    as Hreg by (intros; by apply registered_after_setup).
  setoid_rewrite Hreg. clear Hstart Heff Hreg.
  unfold start_and_register, wired, when. cbv zeta.
  destruct (debugAdapter_enabled config && JS.endsWith _ _);
    destruct (start_error host); simpl.
  all: split; [by repeat constructor|].
  all: split; [split; [done || (intros Hin; list_cases Hin)
                      |intros ?; try done; by repeat constructor]|].
  all: split; [intros command ext Hin; command_cases Hin|].
  all: split; [exists "kotlin.overrideMember"; by repeat constructor|].
  all: split; [done || (intros [command Hin]; list_cases Hin)|intros ?].
  all: try done; exists "kotlin.resolveMain"; by repeat constructor.
Qed.

(** C9. When no custom path is set and the download fails, the routine
    returns normally with [undefined] (it does not throw), having shown
    one warning that carries the error; it has created and started no
    client and registered nothing. *)
Theorem download_failure_aborts_activation (config : Config) (error : string) :
  JS.truthy (languageServer_path config) = false →
  download_error host = Some error →
  let r := activateLanguageServer os host config in
  r.2 = ReturnUndefined ∧
  warnings r.1 = ["Could not update/download Kotlin Language Server: " +:+ error] ∧
  ¬ starts_client r.1 ∧
  (∀ options storagePath, NewLanguageClient options storagePath ∉ r.1) ∧
  Forall is_setup r.1.
Proof.
  intros Hpath Herr. unfold activateLanguageServer. rewrite Hpath, Herr. simpl.
  unfold starts_client. split_and!; [done|done| | |by repeat constructor].
  - intros Hin. list_cases Hin.
  - intros options storagePath Hin. list_cases Hin.
Qed.

Lemma truthy_to_string (v : option string) :
  JS.truthy v = true → Some (JS.to_string v) = v.
Proof. by destruct v. Qed.

(** C6, as the code has it. The stdio connector is the only one that
    prepares an environment: in the environment of the server options it
    produces, [JAVA_HOME] is the resolved Java home when there is one,
    [JAVA_OPTS] the configured options when there are some, and
    [KOTLIN_LANGUAGE_SERVER_OPTS] the debug flags when debug attach is
    enabled; a variable that is not set this way keeps the value inherited
    from the extension host. The TCP launch connector spawns every process
    without an [env] option, so the child inherits the environment of the
    extension host unchanged. *)
Theorem server_environment (config : Config) (path : string) :
  (∀ command args cwd env,
      (serverOptions os host config path).2 = Value (Executable command args cwd env) →
      env !! "JAVA_HOME"
        = (if JS.truthy (javaHome host) then javaHome host
           else process_env host !! "JAVA_HOME") ∧
      env !! "JAVA_OPTS"
        = (if JS.truthy (javaOpts host) then javaOpts host
           else process_env host !! "JAVA_OPTS") ∧
      env !! "KOTLIN_LANGUAGE_SERVER_OPTS"
        = (if languageServer_debugAttach_enabled config
           then Some (KOTLIN_LANGUAGE_SERVER_OPTS
                        {| is_enabled := languageServer_debugAttach_enabled config;
                           auto_suspend := languageServer_debugAttach_autoSuspend config;
                           port := languageServer_debugAttach_port config |})
           else process_env host !! "KOTLIN_LANGUAGE_SERVER_OPTS")) ∧
  (∀ events inherited,
      Forall (λ call, TcpLaunch.child_env inherited call.2 = inherited)
        (TcpLaunch.spawns
           (TcpLaunch.actions
              (TcpLaunch.run path (languageServer_port config) events)))).
Proof.
  split.
  - intros command args cwd env.
    unfold serverOptions, transport_selector, when, stdio_launch, stdio_env.
    cbv zeta. simpl.
    repeat (case_match; simpl); try done; intros [= <- <- <- <-];
      simplify_map_eq; split_and!; auto using truthy_to_string.
  - intros events inherited.
    eapply Forall_impl; [apply tcp_launch_spawns_without_env|].
    intros [[c a] e]; simpl. by intros ->.
Qed.

End activation_facts.

Lemma server_environment_witness :
  ∃ env,
    (Activation.serverOptions Activation.posix Activation.example_host
       Activation.managed_config "/opt/kls/bin/kotlin-language-server").2
    = Activation.Value
        (Executable "/opt/kls/bin/kotlin-language-server" [] (Some "/work") env) ∧
    env !! "JAVA_HOME" = Some "/usr/lib/jvm/jdk-17".
Proof.
  eexists. split; [reflexivity|].
  eapply (proj1 (server_environment Activation.posix Activation.example_host
                   Activation.managed_config "/opt/kls/bin/kotlin-language-server")).
  reflexivity.
Defined.

(** C6, refuted as stated. A Java home is resolved, yet the process the TCP
    launch connector spawns runs without [JAVA_HOME]. *)
Lemma tcp_launch_drops_java_home :
  JS.truthy (Activation.javaHome Activation.example_host) = true ∧
  (λ call, TcpLaunch.child_env (Activation.process_env Activation.example_host) call.2
             !! "JAVA_HOME")
    <$> TcpLaunch.spawns
          (TcpLaunch.actions
             (TcpLaunch.run "/opt/kls/bin/kotlin-language-server" (Some 8080%N)
                [TcpLaunch.SrvListening 8080]))
  = [None].
Proof. split; [reflexivity|]. by vm_compute. Qed.

Lemma extensions_wired_witness :
  let effects :=
    (Activation.activateLanguageServer Activation.posix Activation.example_host
       Activation.other_server_config).1 in
  Activation.starts_client effects ∧
  Activation.RegisterCommand "kotlin.overrideMember"
    (Some Activation.OverrideMemberRequest) ∈ effects ∧
  (Activation.RegisterCommand "kotlin.resolveMain"
     (Some Activation.MainClassRequest) ∉ effects) ∧
  Activation.wired Activation.OverrideMemberRequest effects ∧
  ¬ Activation.wired Activation.MainClassRequest effects.
Proof.
  intros effects.
  assert (Activation.starts_client effects) as Hstart.
  { unfold Activation.starts_client. vm_compute. repeat constructor. }
  destruct (extensions_wired Activation.posix Activation.example_host
              Activation.other_server_config Hstart)
    as (Hoverride & Hmain & _ & Hwired & Hnot).
  split; [exact Hstart|]. split; [exact Hoverride|]. split.
  { intros Hin. apply Hmain in Hin. discriminate Hin. }
  split; [exact Hwired|].
  intros Hin. apply Hnot in Hin. discriminate Hin.
Defined.

(** C5, refuted as stated. With a custom server path that ends in
    [kotlin-language-server] the commands [kotlin.overrideMember] and
    [kotlin.resolveMain] are both registered, each sending its extension;
    with any other custom path [kotlin.overrideMember] still is. *)
Lemma custom_path_still_wires_extensions :
  let custom :=
    (Activation.activateLanguageServer Activation.posix Activation.example_host
       Activation.custom_server_config).1 in
  let other :=
    (Activation.activateLanguageServer Activation.posix Activation.example_host
       Activation.other_server_config).1 in
  JS.truthy (Activation.languageServer_path Activation.custom_server_config) = true ∧
  Activation.RegisterCommand "kotlin.overrideMember"
    (Some Activation.OverrideMemberRequest) ∈ custom ∧
  Activation.RegisterCommand "kotlin.resolveMain"
    (Some Activation.MainClassRequest) ∈ custom ∧
  JS.truthy (Activation.languageServer_path Activation.other_server_config) = true ∧
  Activation.RegisterCommand "kotlin.overrideMember"
    (Some Activation.OverrideMemberRequest) ∈ other.
Proof.
  intros custom other.
  split; [reflexivity|]. split; [vm_compute; by repeat constructor|].
  split; [vm_compute; by repeat constructor|].
  split; [reflexivity|]. vm_compute. by repeat constructor.
Qed.

Lemma download_failure_aborts_activation_witness :
  JS.truthy (Activation.languageServer_path Activation.managed_config) = false ∧
  Activation.download_error Activation.offline_host = Some "ETIMEDOUT" ∧
  (Activation.activateLanguageServer Activation.posix Activation.offline_host
     Activation.managed_config).2 = Activation.ReturnUndefined.
Proof.
  split; [reflexivity|]. split; [reflexivity|].
  apply (download_failure_aborts_activation Activation.posix Activation.offline_host
           Activation.managed_config "ETIMEDOUT"); reflexivity.
Defined.

(** * Further properties *)

(** ** TCP launch connector: the log *)

Section launch_log.
Import TcpLaunch LaunchLog.
Variable startScriptPath : string.
Variable tcpPort : option N.

Local Abbreviation run := (TcpLaunch.run startScriptPath tcpPort).
Local Abbreviation step := (TcpLaunch.step startScriptPath tcpPort).

(** X1. A port that [listen] refuses (a number above 65535) makes
    [listen] throw inside the executor of the promise: the promise is
    rejected with that exception although [reject] is never called. The
    server never binds, so whatever events follow, nothing is spawned,
    no connection is accepted, nothing resolves, nothing reaches the
    output channel, and the connector does nothing after its call of
    [listen]. *)
Theorem tcp_launch_bad_port_rejects (events : list Event) :
  valid_port tcpPort = false →
  let st := run events in
  promise st = Rejected "ERR_SOCKET_BAD_PORT" ∧
  rejections (actions st) = [] ∧
  resolutions (actions st) = [] ∧
  spawns (actions st) = [] ∧
  forwarded (actions st) = [] ∧
  accepted st = [] ∧
  refused st = connections events ∧
  status st = Idle ∧
  actions st = [LogInfo "Creating server." []; Listen tcpPort].
Proof.
  intros Hv st.
  destruct (launch_bad_port startScriptPath tcpPort events Hv)
    as (Hst & Hp & _ & Hacc & Hrf & Hact).
  unfold st. rewrite Hact. by split_and!.
Qed.

Lemma forwarded_snoc (acts : list Action) (a : Action) :
  forwarded (acts ++ [a]) = forwarded acts ++ forwarded [a].
Proof. apply omap_app. Qed.

Lemma process_output_snoc (events : list Event) (ev : Event) :
  process_output (events ++ [ev]) = process_output events ++ process_output [ev].
Proof. apply omap_app. Qed.

(** X2. Nothing reaches the output channel before the child is spawned.
    From then on the channel receives, in order, every chunk the child
    writes to its standard output or standard error and one line for its
    exit, and nothing else, whatever happens to the listener. *)
Theorem tcp_launch_forwards_process_output (events : list Event) :
  let st := run events in
  (proc st = false ∧ forwarded (actions st) = [] ∧
   (status st = Binding ∨ status st = Idle)) ∨
  (∃ pre assigned post,
      events = pre ++ SrvListening assigned :: post ∧
      status (run pre) = Binding ∧
      proc st = true ∧
      forwarded (actions st) = process_output post).
Proof.
  induction events as [|ev events IH] using rev_ind; cbv zeta.
  { left. unfold TcpLaunch.run, tcp_launch. simpl.
    destruct (valid_port tcpPort); simpl; eauto. }
  cbv zeta in IH. rewrite launch_run_snoc.
  destruct IH as [(Hproc & Hfw & Hst)|(pre & a & post & -> & Hpre & Hproc & Hfw)].
  - destruct ev as [a|s|e|d|d|c sg]; simpl; rewrite ?Hproc.
    + destruct Hst as [Hst|Hst]; rewrite Hst; [|left; eauto].
      right. exists events, a, []. split_and!; try done. simpl.
      unfold forwarded in *. rewrite omap_app, Hfw. done.
    + left. destruct Hst as [Hst|Hst]; rewrite Hst; simpl; eauto.
    + left. destruct Hst as [Hst|Hst]; rewrite Hst; simpl; rewrite ?Hst; simpl; [|eauto].
      split_and!; [done| |by right]. unfold forwarded in *. by rewrite omap_app, Hfw.
    + left. eauto.
    + left. eauto.
    + left. eauto.
  - right. exists pre, a, (post ++ [ev]).
    split; [by rewrite <- app_assoc|]. split; [done|].
    rewrite process_output_snoc.
    destruct ev as [a'|s|e|d|d|c sg]; simpl; rewrite ?Hproc; simpl.
    + destruct (status (run (pre ++ SrvListening a :: post)));
        simpl; rewrite ?app_nil_r; try done.
      split; [done|]. unfold forwarded in *. rewrite omap_app, Hfw. simpl.
      by rewrite app_nil_r.
    + destruct (is_listening _); simpl; rewrite ?app_nil_r; [|done].
      split; [done|]. unfold forwarded in *. rewrite omap_app, Hfw. simpl.
      by rewrite app_nil_r.
    + destruct (is_live _); simpl; rewrite ?app_nil_r; [|done].
      split; [done|]. unfold forwarded in *. rewrite omap_app, Hfw. simpl.
      by rewrite app_nil_r.
    + split; [done|]. by rewrite forwarded_snoc, Hfw.
    + split; [done|]. by rewrite forwarded_snoc, Hfw.
    + split; [done|]. by rewrite forwarded_snoc, Hfw.
Qed.

Lemma closes_snoc (acts more : list Action) :
  closes (acts ++ more) = closes acts + closes more.
Proof. unfold closes. by rewrite omap_app, length_app. Qed.

(** The listener is closed once for each accepted connection, and by
    nothing else. *)
Lemma closes_accepted (events : list Event) :
  closes (actions (run events)) = length (accepted (run events)).
Proof.
  induction events as [|ev events IH] using rev_ind.
  { unfold TcpLaunch.run, tcp_launch. by destruct (valid_port tcpPort). }
  rewrite launch_run_snoc.
  destruct ev as [a|s|e|d|d|c sg]; simpl.
  - destruct (status (run events)); simpl; rewrite ?closes_snoc, ?IH; unfold closes; simpl; lia.
  - destruct (is_listening (status (run events))); simpl;
      rewrite ?closes_snoc, ?length_app, ?IH; unfold closes; simpl; lia.
  - destruct (is_live (status (run events))); simpl; rewrite ?closes_snoc, ?IH; unfold closes; simpl; lia.
  - destruct (proc (run events)); simpl; rewrite ?closes_snoc, ?IH; unfold closes; simpl; lia.
  - destruct (proc (run events)); simpl; rewrite ?closes_snoc, ?IH; unfold closes; simpl; lia.
  - destruct (proc (run events)); simpl; rewrite ?closes_snoc, ?IH; unfold closes; simpl; lia.
Qed.

(** X3. An error of a listening server rejects the promise but does not
    close the listener. A connection that arrives afterwards is still
    accepted and closes the listener, yet the promise stays rejected: the
    socket of that connection reaches nobody. *)
Theorem tcp_launch_error_leaves_listener_open
    (pre : list Event) (e : string) (socket : Socket) :
  is_listening (status (run pre)) = true →
  let failed := run (pre ++ [SrvError e]) in
  let st := run (pre ++ [SrvError e; SrvConnection socket]) in
  status failed = status (run pre) ∧
  closes (actions failed) = 0 ∧
  (∃ e', promise failed = Rejected e') ∧
  accepted st = [socket] ∧
  status st = Closed ∧
  closes (actions st) = 1 ∧
  promise st = promise failed ∧
  spawns (actions st) = spawns (actions (run pre)).
Proof.
  intros Hl failed st.
  assert (status (run pre) ≠ Closed) as Hopen by (by destruct (status (run pre))).
  destruct (launch_before_accept _ _ pre Hopen) as (Hacc & _ & Hp).
  assert (failed = on_error e (run pre)) as Hfailed.
  { unfold failed. rewrite launch_run_snoc. simpl.
    by destruct (status (run pre)). }
  assert (st = on_connection socket failed) as Hst.
  { unfold st, failed.
    replace (pre ++ [SrvError e; SrvConnection socket])
      with ((pre ++ [SrvError e]) ++ [SrvConnection socket]) by by rewrite <- app_assoc.
    rewrite launch_run_snoc. fold failed. simpl. rewrite Hfailed. simpl.
    by destruct (status (run pre)). }
  assert (∃ e', promise failed = Rejected e') as [e' He'].
  { rewrite Hfailed. simpl.
    destruct Hp as [->|[(e0 & _ & ->)|(_ & Hidle)]]; simpl; eauto.
    by rewrite Hidle in Hl. }
  assert (closes (actions failed) = 0) as Hcl.
  { unfold failed. rewrite closes_accepted. fold failed.
    rewrite Hfailed. simpl. by rewrite Hacc. }
  split_and!.
  - rewrite Hfailed. simpl. by destruct (status (run pre)).
  - done.
  - eauto.
  - rewrite Hst, Hfailed. simpl. by rewrite Hacc.
  - by rewrite Hst.
  - rewrite Hst. simpl. rewrite closes_snoc, Hcl. done.
  - rewrite Hst. simpl. by rewrite He'.
  - rewrite Hst, Hfailed. simpl. unfold spawns. rewrite !omap_app. simpl.
    by rewrite !app_nil_r.
Qed.

End launch_log.

Lemma tcp_launch_bad_port_rejects_witness :
  valid_port (Some 70000%N) = false ∧
  TcpLaunch.promise
    (TcpLaunch.run "/opt/kls/bin/kotlin-language-server" (Some 70000%N)
       [TcpLaunch.SrvListening 70000; TcpLaunch.SrvConnection 1])
  = Rejected "ERR_SOCKET_BAD_PORT".
Proof.
  split; [reflexivity|].
  destruct (tcp_launch_bad_port_rejects "/opt/kls/bin/kotlin-language-server"
              (Some 70000%N)
              [TcpLaunch.SrvListening 70000; TcpLaunch.SrvConnection 1] eq_refl)
    as (Hrejected & _).
  exact Hrejected.
Defined.

Lemma tcp_launch_error_leaves_listener_open_witness :
  is_listening
    (TcpLaunch.status
       (TcpLaunch.run "/opt/kls/bin/kotlin-language-server" None
          [TcpLaunch.SrvListening 49152])) = true ∧
  TcpLaunch.promise
    (TcpLaunch.run "/opt/kls/bin/kotlin-language-server" None
       ([TcpLaunch.SrvListening 49152]
          ++ [TcpLaunch.SrvError "EMFILE"; TcpLaunch.SrvConnection 7]))
  = Rejected "EMFILE".
Proof.
  split; [reflexivity|].
  destruct (tcp_launch_error_leaves_listener_open
              "/opt/kls/bin/kotlin-language-server" None
              [TcpLaunch.SrvListening 49152] "EMFILE" 7 eq_refl)
    as (_ & _ & _ & _ & _ & _ & -> & _).
  reflexivity.
Defined.

(** ** TCP attach connector: registrations and pending calls *)

Section attach_log.
Import TcpAttach AttachLog.
Variable tcpPort : option N.

Local Abbreviation run := (TcpAttach.run tcpPort).
Local Abbreviation step := (TcpAttach.step tcpPort).

Lemma pending_from_app (first : nat) (ps qs : list (Promise StreamInfo)) :
  pending_from first (ps ++ qs)
  = pending_from first ps ++ pending_from (first + length ps) qs.
Proof.
  revert first. induction ps as [|p ps IH]; intros first; simpl.
  - by rewrite Nat.add_0_r.
  - rewrite IH, <- Nat.add_succ_comm. by destruct p.
Qed.

Lemma elem_of_pending_from (first n : nat) (ps : list (Promise StreamInfo)) :
  n ∈ pending_from first ps ↔ (first ≤ n)%nat ∧ ps !! (n - first)%nat = Some Pending.
Proof.
  revert first. induction ps as [|p ps IH]; intros first; simpl.
  - rewrite elem_of_nil, lookup_nil. by split; [|intros [_ ?]].
  - assert (n ∈ pending_from (S first) ps ↔
            (first < n)%nat ∧ (p :: ps) !! (n - first)%nat = Some Pending) as Htail.
    { rewrite IH. split.
      - intros [Hle Hn]. split; [lia|].
        replace (n - first)%nat with (S (n - S first)) by lia. done.
      - intros [Hlt Hn]. split; [lia|].
        replace (n - first)%nat with (S (n - S first)) in Hn by lia. done. }
    destruct p as [|info|e]; [rewrite elem_of_cons|..]; rewrite Htail.
    + split.
      * intros [->|[? ?]]; [|split; [lia|done]].
        split; [lia|]. by rewrite Nat.sub_diag.
      * intros [Hle Hn]. destruct (decide (n = first)) as [->|]; [by left|].
        right. split; [lia|done].
    + split; [intros [? ?]; split; [lia|done]|].
      intros [Hle Hn]. split; [|done].
      destruct (decide (n = first)) as [->|]; [|lia].
      by rewrite Nat.sub_diag in Hn.
    + split; [intros [? ?]; split; [lia|done]|].
      intros [Hle Hn]. split; [|done].
      destruct (decide (n = first)) as [->|]; [|lia].
      by rewrite Nat.sub_diag in Hn.
Qed.

Lemma NoDup_pending_from (first : nat) (ps : list (Promise StreamInfo)) :
  NoDup (pending_from first ps).
Proof.
  revert first. induction ps as [|p ps IH]; intros first; simpl; [constructor|].
  destruct p; [|done..]. constructor; [|done].
  rewrite elem_of_pending_from. lia.
Qed.

Lemma pending_from_settled (first : nat) (ps : list (Promise StreamInfo)) :
  Forall (λ p, p ≠ Pending) ps → pending_from first ps = [].
Proof.
  intros Hps. revert first. induction Hps as [|p ps Hp _ IH]; intros first; [done|].
  simpl. by destruct p.
Qed.

Lemma listeners_registrations (calls : list nat) :
  EventEmitter.listeners "connection" (registration <$> calls) = registration <$> calls.
Proof.
  unfold EventEmitter.listeners.
  induction calls as [|n calls IH]; [done|]. csimpl. by rewrite IH.
Qed.

Lemma removeAllListeners_registrations (calls : list nat) :
  EventEmitter.removeAllListeners "connect" (registration <$> calls)
  = registration <$> calls.
Proof.
  unfold EventEmitter.removeAllListeners.
  induction calls as [|n calls IH]; [done|]. csimpl. by rewrite IH.
Qed.

Lemma remove_first_connect (h : ServerHandler)
    (em : EventEmitter.t ServerHandler) :
  Forall (λ r, EventEmitter.event r = "connection") em →
  EventEmitter.remove_first "connect" h em = em.
Proof.
  induction 1 as [|r em Hr _ IH]; [done|]. simpl.
  unfold EventEmitter.same, EventEmitter.registered. rewrite Hr. simpl. by rewrite IH.
Qed.

Lemma Forall_registrations (calls : list nat) :
  Forall (λ r : EventEmitter.Registration ServerHandler,
            EventEmitter.event r = "connection") (registration <$> calls).
Proof. apply Forall_fmap. by apply Forall_true. Qed.

(** Removing a listener of ['connect'] leaves the registrations alone. *)
Lemma removeListener_connect (h : ServerHandler) (calls : list nat) :
  EventEmitter.removeListener "connect" h (registration <$> calls)
  = registration <$> calls.
Proof.
  unfold EventEmitter.removeListener.
  rewrite remove_first_connect, reverse_involutive; [done|].
  apply Forall_reverse, Forall_registrations.
Qed.

Lemma remove_first_skip (n : nat) (calls : list nat)
    (em : EventEmitter.t ServerHandler) :
  n ∉ calls →
  EventEmitter.remove_first "connection" (connection_listener n)
    ((registration <$> calls) ++ em)
  = (registration <$> calls) ++
      EventEmitter.remove_first "connection" (connection_listener n) em.
Proof.
  induction calls as [|m calls IH]; intros Hn; [done|]. csimpl.
  apply not_elem_of_cons in Hn as [Hne Hn].
  unfold EventEmitter.same, EventEmitter.registered. simpl.
  rewrite bool_decide_eq_false_2 by congruence. simpl. by rewrite IH.
Qed.

(** A [once] registration at the head of the list that is registered
    nowhere else is the one [removeListener] takes away. *)
Lemma removeListener_head (n : nat) (calls : list nat) :
  n ∉ calls →
  EventEmitter.removeListener "connection" (connection_listener n)
    (registration <$> (n :: calls))
  = registration <$> calls.
Proof.
  intros Hn. unfold EventEmitter.removeListener.
  rewrite fmap_cons, reverse_cons, <- fmap_reverse, remove_first_skip.
  - simpl. unfold EventEmitter.same, EventEmitter.registered. simpl.
    rewrite bool_decide_eq_true_2 by done.
    by rewrite app_nil_r, fmap_reverse, reverse_involutive.
  - by rewrite elem_of_reverse.
Qed.

Lemma lookup_alter_all {A} (f : A → A) (calls : list nat) (l : list A) (i : nat) :
  NoDup calls →
  foldl (λ l n, alter f n l) l calls !! i
  = if decide (i ∈ calls) then f <$> l !! i else l !! i.
Proof.
  intros Hcalls. revert l. induction Hcalls as [|n calls Hn _ IH]; intros l; [done|].
  simpl. rewrite IH. destruct (decide (i = n)) as [->|Hne].
  - rewrite decide_False by done. rewrite decide_True by apply list_elem_of_here.
    apply list_lookup_alter_eq.
  - rewrite list_lookup_alter_ne by done.
    destruct (decide (i ∈ calls)) as [Hi|Hi].
    + by rewrite decide_True by by apply list_elem_of_further.
    + rewrite decide_False; [done|]. by intros [?|?]%elem_of_cons.
Qed.

(** Resolving the pending calls one by one resolves every call. *)
Lemma resolve_pending_calls (info : StreamInfo) (ps : list (Promise StreamInfo)) :
  foldl (λ ps n, alter (resolve info) n ps) ps (pending_calls ps)
  = resolve info <$> ps.
Proof.
  apply list_eq. intros i.
  rewrite lookup_alter_all by apply NoDup_pending_from.
  rewrite list_lookup_fmap. unfold pending_calls.
  destruct (decide _) as [Hi|Hi]; [done|].
  rewrite elem_of_pending_from, Nat.sub_0_r in Hi.
  destruct (ps !! i) as [[| |]|] eqn:Hp; try done.
  destruct Hi. split; [lia|done].
Qed.

Lemma emit_connection_registrations (socket : Socket) (calls : list nat) (st : State) :
  NoDup calls →
  server st = registration <$> calls →
  let st' := emit_server "connection" socket st in
  server st' = [] ∧
  promises st'
    = foldl (λ ps n, alter (resolve {| reader := socket; writer := socket |}) n ps)
        (promises st) calls ∧
  status st' = status st ∧
  uncaught st' = uncaught st.
Proof.
  intros Hcalls. revert st.
  induction Hcalls as [|n calls Hn _ IH]; intros st Hst.
  - unfold emit_server. rewrite Hst. done.
  - pose (st1 := call_server_handler (connection_listener n) socket
                   (set_server (registration <$> calls) st)).
    assert (emit_server "connection" socket st = emit_server "connection" socket st1)
      as ->.
    { unfold emit_server at 1. rewrite Hst, listeners_registrations.
      rewrite fmap_cons. simpl foldl at 1.
      rewrite !Hst, removeListener_head by done.
      unfold emit_server. subst st1. simpl. by rewrite listeners_registrations. }
    destruct (IH st1 eq_refl) as (Hs & Hp & Hstat & Hunc). done.
Qed.

Lemma emit_close_registrations (socket : Socket) (calls : list nat) (st : State) :
  server st = registration <$> calls →
  server (emit_socket socket "close" st) = registration <$> calls.
Proof.
  unfold emit_socket.
  generalize (EventEmitter.listeners "close" (socket_emitter socket st)) as l.
  intros l. revert st. induction l as [|r l IH]; intros st Hst; [done|].
  simpl. apply IH. destruct (EventEmitter.listener r) as [n].
  destruct (EventEmitter.is_once r); simpl; by rewrite Hst, removeListener_connect.
Qed.

(** What a connection does to a listening server whose registrations are
    those of the pending calls. *)
Lemma connection_resolves_all (socket : Socket) (st : State) :
  server st = registration <$> pending_calls (promises st) →
  let st' := emit_server "connection" socket st in
  server st' = [] ∧
  promises st' = resolve {| reader := socket; writer := socket |} <$> promises st ∧
  status st' = status st ∧
  uncaught st' = uncaught st.
Proof.
  intros Hst.
  destruct (emit_connection_registrations socket _ st (NoDup_pending_from 0 _) Hst)
    as (Hs & Hp & Hstat & Hunc).
  by rewrite resolve_pending_calls in Hp.
Qed.

Lemma pending_calls_resolved (info : StreamInfo) (ps : list (Promise StreamInfo)) :
  pending_calls (resolve info <$> ps) = [].
Proof.
  apply pending_from_settled, Forall_fmap, Forall_true. intros p. by destruct p.
Qed.

Lemma attach_registrations (events : list Event) :
  server (run events) = registration <$> pending_calls (promises (run events)).
Proof.
  induction events as [|ev events IH] using rev_ind; [done|].
  rewrite attach_run_snoc. destruct ev as [|a|s|e|s]; simpl.
  - rewrite IH, removeAllListeners_registrations.
    unfold EventEmitter.once, pending_calls.
    rewrite pending_from_app, fmap_app. done.
  - by destruct (status (run events)).
  - destruct (is_listening (status (run events))); [|done].
    destruct (connection_resolves_all s _ IH) as (-> & -> & _).
    by rewrite pending_calls_resolved.
  - destruct (is_live (status (run events))); [|done].
    simpl. by destruct (EventEmitter.listenerCount _ _).
  - destruct (emit_socket_frame s "close" (run events)) as (_ & ->).
    by apply emit_close_registrations.
Qed.

(** X4. At every moment the listeners registered on the server are exactly
    one [once] listener of ['connection'] for each call of the channel
    source whose promise is still pending, in the order of the calls. So as
    many registrations wait for a connection as there are pending calls. *)
Theorem tcp_attach_registrations_are_pending_calls (events : list Event) :
  let st := run events in
  server st = registration <$> pending_calls (promises st) ∧
  waiting st = length (pending_calls (promises st)).
Proof.
  simpl. split; [apply attach_registrations|].
  unfold waiting, EventEmitter.listenerCount.
  by rewrite attach_registrations, listeners_registrations, length_fmap.
Qed.

(** X5. A connection to the listening server settles every call at once:
    each pending promise is fulfilled with the socket of that connection as
    reader and writer, the promises already settled keep their value, and no
    registration is left on the server. *)
Theorem tcp_attach_connection_resolves_every_pending_call
    (events : list Event) (socket : Socket) :
  is_listening (status (run events)) = true →
  let st := run events in
  let st' := step st (SrvConnection socket) in
  promises st' = resolve {| reader := socket; writer := socket |} <$> promises st ∧
  Forall (λ p, p ≠ Pending) (promises st') ∧
  server st' = [] ∧
  status st' = status st.
Proof.
  intros Hl. simpl. rewrite Hl.
  destruct (connection_resolves_all socket _ (attach_registrations events))
    as (-> & -> & -> & _).
  split_and!; try done.
  apply Forall_fmap, Forall_true. intros p. by destruct p.
Qed.

(** X6. The handler the connector arms on ['close'] of a socket changes
    nothing on the server: when a socket closes, the registrations of the
    server, the promises and the state of the listener are what they were. *)
Theorem tcp_attach_socket_close_leaves_server_alone
    (events : list Event) (socket : Socket) :
  let st := run events in
  let st' := step st (SocketClose socket) in
  server st' = server st ∧ promises st' = promises st ∧ status st' = status st.
Proof.
  simpl. destruct (emit_socket_frame socket "close" (run events)) as (-> & ->).
  split; [|done].
  rewrite (emit_close_registrations socket _ _ (attach_registrations events)).
  by rewrite attach_registrations.
Qed.

Lemma sessions_snoc (sockets : list Socket) (socket : Socket) :
  sessions (sockets ++ [socket]) = sessions sockets ++ [Start; SrvConnection socket].
Proof. unfold sessions. by rewrite bind_app. Qed.

(** X7. When the server is listening and every start of the client is
    followed by one connection before the next start, each call gets its own
    channel: the n-th promise is fulfilled with the n-th socket, no
    registration is left behind, and the server is still listening on the
    same port, ready for a further start. *)
Theorem tcp_attach_sessions (assigned : positive) (sockets : list Socket) :
  let st := run (SrvListening assigned :: sessions sockets) in
  promises st = connected <$> sockets ∧
  server st = [] ∧
  status st = Listening (bound_port tcpPort assigned).
Proof.
  induction sockets as [|socket sockets IH] using rev_ind; [done|].
  simpl in *. destruct IH as (Hp & Hs & Hst).
  rewrite sessions_snoc, app_comm_cons.
  replace ((SrvListening assigned :: sessions sockets) ++ [Start; SrvConnection socket])
    with (((SrvListening assigned :: sessions sockets) ++ [Start])
            ++ [SrvConnection socket]) by by rewrite <- app_assoc.
  rewrite attach_run_snoc.
  set (started := run ((SrvListening assigned :: sessions sockets) ++ [Start])).
  assert (status started = Listening (bound_port tcpPort assigned)) as Hst'.
  { unfold started. rewrite attach_run_snoc. simpl. exact Hst. }
  assert (promises started = (connected <$> sockets) ++ [Pending]) as Hp'.
  { unfold started. rewrite attach_run_snoc. simpl. by rewrite Hp. }
  simpl. rewrite Hst'. simpl.
  destruct (connection_resolves_all socket started) as (-> & -> & -> & _).
  { unfold started. apply attach_registrations. }
  split_and!; [|done..].
  rewrite Hp', !fmap_app, <- list_fmap_compose. f_equal.
Qed.

(** X8. The connector never closes its listener: once the server listens,
    it keeps listening on the same port whatever follows, be it restarts of
    the client, connections, closed sockets or errors. *)
Theorem tcp_attach_keeps_listening (pre post : list Event) (bound : N) :
  status (run pre) = Listening bound →
  status (run (pre ++ post)) = Listening bound.
Proof.
  intros Hpre. induction post as [|ev post IH] using rev_ind.
  - by rewrite app_nil_r.
  - rewrite app_assoc, attach_run_snoc.
    destruct ev as [|a|s|e|s]; simpl; rewrite ?IH; simpl; try done.
    + by destruct (emit_server_frame "connection" s (run (pre ++ post))) as (-> & _).
    + by destruct (EventEmitter.listenerCount _ _).
    + by destruct (emit_socket_frame s "close" (run (pre ++ post))) as (-> & _).
Qed.

(** X9. Nothing listens to ['error'] on the server: every error of the
    binding or listening server is thrown as an unhandled error, and it
    touches neither the promises nor the registrations. *)
Theorem tcp_attach_errors_are_unhandled (events : list Event) (e : string) :
  is_live (status (run events)) = true →
  let st := run events in
  let st' := step st (SrvError e) in
  uncaught st' = uncaught st ++ [e] ∧
  promises st' = promises st ∧
  server st' = server st.
Proof.
  intros Hl. simpl. rewrite Hl. simpl.
  unfold EventEmitter.listenerCount.
  rewrite attach_registrations.
  assert (EventEmitter.listeners "error"
            (registration <$> pending_calls (promises (run events))) = []) as ->.
  { unfold EventEmitter.listeners.
    induction (pending_calls _) as [|n calls IH]; [done|]. csimpl. exact IH. }
  simpl. split_and!; [done|done|apply attach_registrations].
Qed.

End attach_log.

Lemma tcp_attach_connection_resolves_every_pending_call_witness :
  is_listening
    (TcpAttach.status
       (TcpAttach.run (Some 9999%N)
          [TcpAttach.SrvListening 1; TcpAttach.Start; TcpAttach.Start])) = true ∧
  TcpAttach.promises
    (TcpAttach.step (Some 9999%N)
       (TcpAttach.run (Some 9999%N)
          [TcpAttach.SrvListening 1; TcpAttach.Start; TcpAttach.Start])
       (TcpAttach.SrvConnection 4))
  = [AttachLog.connected 4; AttachLog.connected 4].
Proof.
  split; [reflexivity|].
  destruct (tcp_attach_connection_resolves_every_pending_call (Some 9999%N)
              [TcpAttach.SrvListening 1; TcpAttach.Start; TcpAttach.Start] 4 eq_refl)
    as (-> & _).
  reflexivity.
Defined.

Lemma tcp_attach_keeps_listening_witness :
  TcpAttach.status (TcpAttach.run None [TcpAttach.SrvListening 49152])
  = Listening 49152 ∧
  TcpAttach.status
    (TcpAttach.run None
       ([TcpAttach.SrvListening 49152]
          ++ [TcpAttach.Start; TcpAttach.SrvError "EMFILE"; TcpAttach.SrvConnection 2;
              TcpAttach.SocketClose 2]))
  = Listening 49152.
Proof.
  split; [reflexivity|].
  apply (tcp_attach_keeps_listening None [TcpAttach.SrvListening 49152]).
  reflexivity.
Defined.

Lemma tcp_attach_errors_are_unhandled_witness :
  is_live (TcpAttach.status (TcpAttach.run (Some 9999%N) [TcpAttach.Start])) = true ∧
  TcpAttach.uncaught
    (TcpAttach.step (Some 9999%N) (TcpAttach.run (Some 9999%N) [TcpAttach.Start])
       (TcpAttach.SrvError "EADDRINUSE"))
  = ["EADDRINUSE"].
Proof.
  split; [reflexivity|].
  destruct (tcp_attach_errors_are_unhandled (Some 9999%N) [TcpAttach.Start]
              "EADDRINUSE" eq_refl) as (-> & _).
  reflexivity.
Defined.

(** ** Activation: what is done, and when *)

Section activation_log.
Import Activation ActivationLog.
Variable os : Platform.
Variable host : Host.
Variable config : Config.

Lemma bind_eq {A B} (m : Act A) (f : A → Act B) :
  m ≫= f =
  match m.2 with
  | Value a => (m.1 ++ (f a).1, (f a).2)
  | ReturnUndefined => (m.1, ReturnUndefined)
  | Throw e => (m.1, Throw e)
  end.
Proof. by destruct m as [effects [a| |e]]. Qed.

Lemma createLanguageClient_eq (options : ServerOptions) (storagePath : string)
    (patterns : list string) :
  createLanguageClient options storagePath patterns
  = ((CreateFileSystemWatcher <$> patterns) ++ [NewLanguageClient options storagePath],
     Value ()).
Proof.
  unfold createLanguageClient.
  assert (foldr (λ globPattern rest, emit (CreateFileSystemWatcher globPattern);; rest)
            (mret ()) patterns
          = (CreateFileSystemWatcher <$> patterns, Value ())) as ->.
  { induction patterns as [|p ps IH]; [done|]. cbn [foldr]. by rewrite IH. }
  done.
Qed.

Lemma serverOptions_eq (path : string) :
  serverOptions os host config path =
  match script_failure os host with
  | Some e => (selector_effects config ++ chmod_effects os host path, Throw e)
  | None =>
      (selector_effects config ++ chmod_effects os host path ++ connector_effects config,
       Value (selected_options host config path))
  end.
Proof.
  unfold serverOptions. rewrite bind_eq.
  unfold transport_selector, script_failure, selector_effects,
    chmod_effects, connector_effects, selected_options, unknown_transport, when.
  destruct (JS.is_undefined _) eqn:Hget; simpl.
  - by destruct (isOSUnixoid os); simpl;
      [destruct (stat_mode host); simpl; [|destruct (chmod_error host)]|].
  - destruct (languageServer_transport config) as [raw|]; [|done].
    unfold is_layer.
    assert (∀ t, bool_decide (Some raw = Some (TransportLayer_value t)) = false) as Hno.
    { intros t. apply bool_decide_eq_false_2. intros [= ->]. by destruct t. }
    rewrite !Hno. simpl.
    by destruct (isOSUnixoid os); simpl;
      [destruct (stat_mode host); simpl; [|destruct (chmod_error host)]|].
Qed.

Lemma activation_eq :
  activateLanguageServer os host config =
  match download_failure host config with
  | Some error =>
      (download_effects os host config
         ++ [ConsoleError error;
             ShowWarningMessage
               ("Could not update/download Kotlin Language Server: " +:+ error)],
       ReturnUndefined)
  | None =>
      match storageUri host with
      | None => (output_effects os host config, Throw "TypeError")
      | Some storagePath =>
          match mkdir_failure host with
          | Some e => (storage_effects os host config, Throw e)
          | None =>
              match script_failure os host with
              | Some e =>
                  (storage_effects os host config
                     ++ selector_effects config
                     ++ chmod_effects os host (startScriptPath os host config),
                   Throw e)
              | None =>
                  (storage_effects os host config
                     ++ (selector_effects config
                           ++ chmod_effects os host (startScriptPath os host config)
                           ++ connector_effects config)
                     ++ (CreateFileSystemWatcher
                           <$> default default_watchFiles
                                 (languageServer_watchFiles config))
                     ++ [NewLanguageClient
                           (selected_options host config (startScriptPath os host config))
                           storagePath]
                     ++ (start_and_register os host config).1,
                   (start_and_register os host config).2)
              end
          end
      end
  end.
Proof.
  unfold activateLanguageServer, download_failure, mkdir_failure, storage_effects,
    output_effects, download_effects, when.
  cbv zeta.
  pose proof (serverOptions_eq (startScriptPath os host config)) as Hoptions.
  revert Hoptions.
  generalize (serverOptions os host config (startScriptPath os host config)).
  intros options Hoptions.
  assert (∀ storagePath,
             options ≫= (λ o,
               createLanguageClient o storagePath
                 (default default_watchFiles (languageServer_watchFiles config));;
               start_and_register os host config)
             = match script_failure os host with
               | Some e =>
                   (selector_effects config
                      ++ chmod_effects os host (startScriptPath os host config),
                    Throw e)
               | None =>
                   ((selector_effects config
                       ++ chmod_effects os host (startScriptPath os host config)
                       ++ connector_effects config)
                      ++ (CreateFileSystemWatcher
                            <$> default default_watchFiles
                                  (languageServer_watchFiles config))
                      ++ [NewLanguageClient
                            (selected_options host config
                               (startScriptPath os host config))
                            storagePath]
                      ++ (start_and_register os host config).1,
                    (start_and_register os host config).2)
               end) as Hrest.
  { intros storagePath. rewrite bind_eq, Hoptions.
    destruct (script_failure os host); [done|]. cbn [fst snd].
    rewrite bind_eq, createLanguageClient_eq. cbn [fst snd].
    by rewrite <- !app_assoc. }
  clear Hoptions.
  destruct (JS.truthy (languageServer_path config)), (download_error host),
    (storageUri host) as [storagePath|], (storage_exists host), (mkdir_error host);
    cbn [negb];
    repeat first [rewrite Hrest
                 |rewrite bind_eq; cbn [fst snd emit throw return_undefined mret Act_ret]];
    try done.
  all: by destruct (script_failure os host).
Qed.

Lemma start_and_register_completion :
  (start_and_register os host config).2 =
  match start_error host with
  | Some e => Throw e
  | None => Value new_KotlinApi
  end.
Proof.
  unfold start_and_register, when. cbv zeta.
  by destruct (debugAdapter_enabled config && _), (start_error host).
Qed.

(** X10. An activation ends as its first failure decides, the failures
    being met in this order: the download (when no custom path is set), the
    storage directory (no workspace storage, as when no folder is open, or,
    when the directory does not exist, its creation), the start script (on
    a Unix-like system, whatever the transport: its [stat], then its
    [chmod]), and the start of the client. A failed download ends it with
    [undefined], the others with the error thrown; with no failure it
    returns the API. *)
Theorem activation_ends_at_first_failure :
  (activateLanguageServer os host config).2 = first_failure os host config.
Proof.
  rewrite activation_eq. unfold first_failure, storage_failure.
  destruct (download_failure host config); [done|].
  destruct (storageUri host); [|done].
  destruct (mkdir_failure host); [done|].
  destruct (script_failure os host); [done|].
  apply start_and_register_completion.
Qed.

Lemma start_and_register_effects :
  (start_and_register os host config).1 =
  [ClientStart; RegisterContentProvider "kls"; Subscribe "contentProvider";
   RegisterCommand "kotlin.overrideMember" (Some OverrideMemberRequest)]
  ++ (if debugAdapter_enabled config
         && JS.endsWith (startScriptPath os host config) "kotlin-language-server"
      then [RegisterCodeLensProvider "kotlin";
            RegisterCommand "kotlin.resolveMain" (Some MainClassRequest);
            RegisterCommand "kotlin.runMain" None;
            RegisterCommand "kotlin.debugMain" None]
      else []).
Proof.
  unfold start_and_register, when. cbv zeta.
  by destruct (debugAdapter_enabled config && _), (start_error host).
Qed.

Ltac log_of f :=
  unfold f; rewrite ?start_and_register_effects;
  unfold storage_effects, output_effects, download_effects, selector_effects,
    chmod_effects, connector_effects;
  repeat rewrite omap_app;
  repeat match goal with H : storageUri _ = _ |- _ => rewrite H end.

Lemma omap_watchers {B} (f : Effect → option B) (patterns : list string) :
  (∀ g, f (CreateFileSystemWatcher g) = None) →
  omap f (CreateFileSystemWatcher <$> patterns) = [].
Proof.
  intros Hf. induction patterns as [|p ps IH]; [done|]. csimpl. by rewrite Hf.
Qed.

(** X11. An activation writes to the configuration at most once, and only
    [languageServer.transport := stdio]. It does so exactly when it gets as
    far as the transport selector (no failed download, a workspace storage,
    no failed [mkdir]) and the configured value names no property of the
    enum object; the write is made even if the activation fails
    afterwards. *)
Theorem activation_config_writes :
  config_writes (activateLanguageServer os host config).1 =
  match download_failure host config, storage_failure host with
  | None, None =>
      if unknown_transport config then [("languageServer.transport", "stdio")] else []
  | _, _ => []
  end.
Proof.
  rewrite activation_eq. unfold storage_failure.
  destruct (download_failure host config) eqn:Hd; cbn [fst snd].
  { log_of config_writes. by destruct (JS.truthy _). }
  destruct (storageUri host) as [storagePath|] eqn:Hsu; cbn [fst snd].
  2:{ log_of config_writes. by destruct (JS.truthy _). }
  destruct (mkdir_failure host) eqn:Hm; cbn [fst snd].
  { log_of config_writes.
    by destruct (JS.truthy _), (storage_exists host). }
  destruct (script_failure os host) eqn:Hs; cbn [fst snd].
  { log_of config_writes.
    by destruct (JS.truthy _), (storage_exists host), (unknown_transport config),
         (isOSUnixoid os), (stat_mode host). }
  log_of config_writes. rewrite omap_watchers by done.
  destruct (JS.truthy _), (storage_exists host), (unknown_transport config),
    (isOSUnixoid os), (stat_mode host), (debugAdapter_enabled config && _);
    simpl; done.
Qed.

(** X12. An activation creates at most one client and starts it at most
    once. It creates and starts one exactly when the download did not fail,
    there is a workspace storage, and neither [mkdir] nor the [stat] or the
    [chmod] of the start script failed; the client is given the storage
    path and either the stdio connector (configured transport unknown to
    the enum object) or no server options at all, never a TCP connector. *)
Theorem activation_creates_one_client :
  let effects := (activateLanguageServer os host config).1 in
  clients effects =
    match download_failure host config, storageUri host,
          mkdir_failure host, script_failure os host with
    | None, Some storagePath, None, None =>
        [(selected_options host config (startScriptPath os host config), storagePath)]
    | _, _, _, _ => []
    end ∧
  client_starts effects = length (clients effects).
Proof.
  cbv zeta. rewrite activation_eq.
  destruct (download_failure host config) eqn:Hd; cbn [fst snd].
  { log_of clients. log_of client_starts. by destruct (JS.truthy _). }
  destruct (storageUri host) as [storagePath|] eqn:Hsu; cbn [fst snd].
  2:{ log_of clients. log_of client_starts. by destruct (JS.truthy _). }
  destruct (mkdir_failure host) eqn:Hm; cbn [fst snd].
  { log_of clients. log_of client_starts.
    by destruct (JS.truthy _), (storage_exists host). }
  destruct (script_failure os host) eqn:Hs; cbn [fst snd].
  { log_of clients. log_of client_starts.
    by destruct (JS.truthy _), (storage_exists host), (unknown_transport config),
         (isOSUnixoid os), (stat_mode host). }
  log_of clients. log_of client_starts. rewrite !omap_watchers by done.
  destruct (JS.truthy _), (storage_exists host), (unknown_transport config),
    (isOSUnixoid os), (stat_mode host), (debugAdapter_enabled config && _);
    simpl; done.
Qed.

(** X13. An activation that creates a client creates, before it, one file
    system watcher for each configured glob pattern, in order, and the six
    default patterns when none is configured; a configured empty list gives
    no watcher at all. An activation that creates no client (a failed
    download, no workspace storage, a failed [mkdir], [stat] or [chmod])
    creates no watcher. *)
Theorem activation_watchers :
  watchers (activateLanguageServer os host config).1 =
  match download_failure host config, storage_failure host, script_failure os host with
  | None, None, None =>
      match languageServer_watchFiles config with
      | Some patterns => patterns
      | None => ["**/*.kt"; "**/*.kts"; "**/*.java"; "**/pom.xml";
                 "**/build.gradle"; "**/settings.gradle"]
      end
  | _, _, _ => []
  end.
Proof.
  rewrite activation_eq. unfold storage_failure.
  destruct (download_failure host config) eqn:Hd; cbn [fst snd].
  { log_of watchers. by destruct (JS.truthy _). }
  destruct (storageUri host) as [storagePath|] eqn:Hsu; cbn [fst snd].
  2:{ log_of watchers. by destruct (JS.truthy _). }
  destruct (mkdir_failure host) eqn:Hm; cbn [fst snd].
  { log_of watchers. by destruct (JS.truthy _), (storage_exists host). }
  destruct (script_failure os host) eqn:Hs; cbn [fst snd].
  { log_of watchers.
    by destruct (JS.truthy _), (storage_exists host), (unknown_transport config),
         (isOSUnixoid os), (stat_mode host). }
  log_of watchers.
  assert (∀ patterns, omap (λ eff, match eff with
                                   | CreateFileSystemWatcher g => Some g
                                   | _ => None
                                   end) (CreateFileSystemWatcher <$> patterns)
                      = patterns) as ->.
  { intros patterns. induction patterns as [|p ps IH]; [done|]. csimpl. by rewrite IH. }
  destruct (JS.truthy _), (storage_exists host), (unknown_transport config),
    (isOSUnixoid os), (stat_mode host), (debugAdapter_enabled config && _),
    (languageServer_watchFiles config);
    simpl; by rewrite ?app_nil_r.
Qed.

(** X14. The managed server is downloaded exactly when no custom path is
    set, an empty path counting as none; the download is asked for once, into
    the install directory, before anything else is set up. *)
Theorem activation_downloads :
  downloads (activateLanguageServer os host config).1 =
  match languageServer_path config with
  | None | Some "" => [langServerInstallDir os host]
  | Some _ => []
  end.
Proof.
  rewrite activation_eq.
  assert (JS.truthy (languageServer_path config) =
          match languageServer_path config with
          | None | Some "" => false
          | Some _ => true
          end) as Htruthy.
  { destruct (languageServer_path config) as [[|c p]|]; done. }
  unfold download_failure.
  assert (downloads (download_effects os host config) =
          match languageServer_path config with
          | None | Some "" => [langServerInstallDir os host]
          | Some _ => []
          end) as Hdl.
  { log_of downloads. rewrite Htruthy.
    by destruct (languageServer_path config) as [[|c p]|]. }
  destruct (if JS.truthy _ then _ else _) eqn:Hd; cbn [fst snd].
  { unfold downloads in *. rewrite omap_app, Hdl. simpl. repeat rewrite app_nil_r. done. }
  destruct (storageUri host) as [storagePath|] eqn:Hsu; cbn [fst snd].
  2:{ unfold output_effects, downloads in *. rewrite !omap_app, Hdl.
      simpl. repeat rewrite app_nil_r. done. }
  destruct (mkdir_failure host) eqn:Hm; cbn [fst snd].
  { unfold storage_effects, output_effects, downloads in *.
    rewrite Hsu, !omap_app, Hdl.
    destruct (storage_exists host); simpl; repeat rewrite app_nil_r; done. }
  destruct (script_failure os host) eqn:Hs; cbn [fst snd].
  { unfold storage_effects, output_effects, downloads in *.
    rewrite Hsu. repeat rewrite omap_app. rewrite Hdl.
    unfold selector_effects, chmod_effects.
    destruct (storage_exists host), (unknown_transport config),
      (isOSUnixoid os), (stat_mode host); simpl;
      repeat rewrite app_nil_r; done. }
  unfold storage_effects, output_effects, downloads in *.
  rewrite Hsu. repeat rewrite omap_app. rewrite Hdl.
  rewrite omap_watchers, start_and_register_effects by done.
  unfold selector_effects, chmod_effects, connector_effects.
  repeat rewrite omap_app.
  destruct (storage_exists host), (unknown_transport config),
    (isOSUnixoid os), (stat_mode host), (debugAdapter_enabled config && _);
    simpl; repeat rewrite app_nil_r; done.
Qed.

Lemma chmod_mode_bits (mode : Z) :
  let m := Z.lor (Z.land mode 511) S_IXUSR in
  (0 ≤ m < 512)%Z ∧
  Z.testbit m 6 = true ∧
  ∀ i, (0 ≤ i < 9)%Z → i ≠ 6%Z → Z.testbit m i = Z.testbit mode i.
Proof.
  cbv zeta. change 511%Z with (Z.ones 9). change S_IXUSR with (2 ^ 6)%Z.
  split; [|split].
  - replace (Z.lor (Z.land mode (Z.ones 9)) (2 ^ 6))
      with (Z.land (Z.lor mode (2 ^ 6)) (Z.ones 9)).
    + rewrite Z.land_ones by lia. apply Z.mod_pos_bound. lia.
    + rewrite Z.land_lor_distr_l. f_equal.
  - rewrite Z.lor_spec, Z.pow2_bits_true by lia. apply orb_true_r.
  - intros i Hi Hne.
    rewrite Z.lor_spec, Z.land_spec, Z.ones_spec_low by lia.
    rewrite Z.pow2_bits_false by congruence.
    by rewrite andb_true_r, orb_false_r.
Qed.

(** X15. A [chmod] is only ever applied to the start script, only on a
    Unix-like system and only after its [stat] succeeded. The mode it sets
    lies within the nine permission bits, has the user-execute bit set, and
    agrees with the mode read on every other permission bit. *)
Theorem activation_chmod (path : string) (mode : Z) :
  (path, mode) ∈ chmods (activateLanguageServer os host config).1 →
  path = startScriptPath os host config ∧
  isOSUnixoid os = true ∧
  ∃ current,
    stat_mode host = inr current ∧
    (0 ≤ mode < 512)%Z ∧
    Z.testbit mode 6 = true ∧
    ∀ i, (0 ≤ i < 9)%Z → i ≠ 6%Z → Z.testbit mode i = Z.testbit current i.
Proof.
  rewrite activation_eq.
  destruct (download_failure host config) eqn:Hd; cbn [fst snd].
  { log_of chmods. destruct (JS.truthy _); simpl; by intros ?%elem_of_nil. }
  destruct (storageUri host) as [storagePath|] eqn:Hsu; cbn [fst snd].
  2:{ log_of chmods. destruct (JS.truthy _); simpl; by intros ?%elem_of_nil. }
  destruct (mkdir_failure host) eqn:Hm; cbn [fst snd].
  { log_of chmods.
    destruct (JS.truthy _), (storage_exists host); simpl; by intros ?%elem_of_nil. }
  assert ((path, mode)
            ∈ chmods (chmod_effects os host (startScriptPath os host config)) →
          path = startScriptPath os host config ∧
          isOSUnixoid os = true ∧
          ∃ current,
            stat_mode host = inr current ∧
            (0 ≤ mode < 512)%Z ∧
            Z.testbit mode 6 = true ∧
            ∀ i, (0 ≤ i < 9)%Z → i ≠ 6%Z → Z.testbit mode i = Z.testbit current i)
    as Hchmod.
  { unfold chmod_effects.
    destruct (isOSUnixoid os) eqn:Hos, (stat_mode host) as [e|current] eqn:Hstat;
      simpl; try by intros ?%elem_of_nil.
    intros [= -> ->]%list_elem_of_singleton.
    split; [done|]. split; [done|]. exists current. split; [done|].
    apply chmod_mode_bits. }
  assert (chmods (storage_effects os host config ++ selector_effects config) = [])
    as Hbefore.
  { log_of chmods.
    by destruct (JS.truthy _), (storage_exists host), (unknown_transport config). }
  unfold chmods in Hbefore. rewrite omap_app in Hbefore.
  apply app_eq_nil in Hbefore as [Hstorage Hselector].
  destruct (script_failure os host) eqn:Hs; cbn [fst snd].
  { unfold chmods at 1. repeat rewrite omap_app.
    rewrite Hstorage, Hselector. exact Hchmod. }
  unfold chmods at 1. repeat rewrite omap_app.
  rewrite Hstorage, Hselector, omap_watchers by done.
  rewrite start_and_register_effects. unfold connector_effects.
  intros Hin. apply Hchmod.
  destruct (unknown_transport config), (debugAdapter_enabled config && _);
    simpl in Hin; rewrite ?app_nil_r in Hin; exact Hin.
Qed.

(** X16. The server options of the stdio connector name the start script
    as the command, with no arguments and the first workspace folder, if
    any, as working directory. In their environment every variable other
    than [JAVA_HOME], [JAVA_OPTS] and [KOTLIN_LANGUAGE_SERVER_OPTS] has the
    value it has in the environment of the extension host. *)
Theorem stdio_environment_is_inherited (path command : string) (args : list string)
    (cwd : option string) (env : gmap string string) :
  (serverOptions os host config path).2 = Value (Executable command args cwd env) →
  command = path ∧
  args = [] ∧
  cwd = head (workspaceFolders host) ∧
  ∀ name,
    name ≠ "JAVA_HOME" → name ≠ "JAVA_OPTS" → name ≠ "KOTLIN_LANGUAGE_SERVER_OPTS" →
    env !! name = process_env host !! name.
Proof.
  rewrite serverOptions_eq. destruct (script_failure os host); [done|]. simpl.
  unfold selected_options. destruct (unknown_transport config); [|done].
  unfold stdio_launch. intros [= <- <- <- <-]. split_and!; try done.
  intros name H1 H2 H3. unfold stdio_env, java_env, debugConfig. simpl.
  destruct (languageServer_debugAttach_enabled config), (JS.truthy (javaHome host)),
    (JS.truthy (javaOpts host)); by rewrite ?lookup_insert_ne by done.
Qed.

End activation_log.

(** With no folder open the activation throws as soon as it reads the
    storage path: the managed server has been downloaded and the output
    channel created, but no directory is made, no setting written and no
    client created. *)
Example activation_without_folder :
  Activation.activateLanguageServer Activation.posix Activation.folderless_host
    Activation.managed_config
  = ([Activation.LogInfo "Activating Kotlin Language Server...";
      Activation.StatusUpdate "Activating Kotlin Language Server...";
      Activation.DownloadServerIfNeeded
        "/home/u/.config/Code/globalStorage/kotlin/langServerInstall";
      Activation.CreateOutputChannel "Kotlin";
      Activation.Subscribe "outputChannel";
      Activation.StatusDispose],
     Activation.Throw "TypeError").
Proof. reflexivity. Qed.

(** When [chmod] is refused the activation throws after the attempt: the
    fallback has been written to the configuration, but no client is
    created. *)
Example activation_with_foreign_script :
  let r := Activation.activateLanguageServer Activation.posix
             Activation.foreign_script_host Activation.custom_server_config in
  r.2 = Activation.Throw "EPERM" ∧
  ActivationLog.chmods r.1 = [("/opt/kls/bin/kotlin-language-server", 484%Z)] ∧
  Activation.config_writes r.1 = [("languageServer.transport", "stdio")] ∧
  ActivationLog.clients r.1 = [].
Proof. intros r. by split_and!. Qed.

Lemma activation_chmod_witness :
  ("/opt/kls/bin/kotlin-language-server", 484%Z)
    ∈ ActivationLog.chmods
        (Activation.activateLanguageServer Activation.posix Activation.example_host
           Activation.custom_server_config).1 ∧
  Z.testbit 484 6 = true.
Proof.
  assert (("/opt/kls/bin/kotlin-language-server", 484%Z)
            ∈ ActivationLog.chmods
                (Activation.activateLanguageServer Activation.posix
                   Activation.example_host Activation.custom_server_config).1) as Hin.
  { vm_compute. repeat constructor. }
  split; [exact Hin|].
  destruct (activation_chmod Activation.posix Activation.example_host
              Activation.custom_server_config _ _ Hin)
    as (_ & _ & current & _ & _ & Hbit & _).
  exact Hbit.
Defined.

Lemma stdio_environment_is_inherited_witness :
  ∃ env,
    (Activation.serverOptions Activation.posix Activation.example_host
       Activation.managed_config "/opt/kls/bin/kotlin-language-server").2
    = Activation.Value
        (Executable "/opt/kls/bin/kotlin-language-server" [] (Some "/work") env) ∧
    env !! "PATH" = Some "/usr/bin".
Proof.
  eexists. split; [reflexivity|].
  match goal with
  | |- ?env !! _ = _ =>
      destruct (stdio_environment_is_inherited Activation.posix Activation.example_host
                  Activation.managed_config "/opt/kls/bin/kotlin-language-server"
                  "/opt/kls/bin/kotlin-language-server" [] (Some "/work") env eq_refl)
        as (_ & _ & _ & Hother)
  end.
  rewrite (Hother "PATH") by done. reflexivity.
Defined.

(** ** Stdio connector: the debug flags *)

Lemma length_append (a b : string) :
  String.length (a +:+ b) = (String.length a + String.length b)%nat.
Proof.
  induction a as [|c a IH]; [done|].
  change (S (String.length (a +:+ b)) = S (String.length a + String.length b)).
  by rewrite IH.
Qed.

Lemma append_inj_prefix (a x y : string) : a +:+ x = a +:+ y → x = y.
Proof.
  induction a as [|c a IH]; [done|].
  change (String c (a +:+ x) = String c (a +:+ y) → x = y).
  intros [= H]. by apply IH.
Qed.

Lemma append_inj_length (a b x y : string) :
  String.length a = String.length b → a +:+ x = b +:+ y → a = b ∧ x = y.
Proof.
  revert b. induction a as [|c a IH]; intros [|d b] Hlen; try done.
  change (String c (a +:+ x) = String d (b +:+ y) → String c a = String d b ∧ x = y).
  intros [= -> H]. destruct (IH b) as [-> ->]; [by injection Hlen|done|done].
Qed.

(** X17. The flag string keeps the configuration apart: two debug
    configurations with the same [KOTLIN_LANGUAGE_SERVER_OPTS] have the same
    port and the same suspend setting. *)
Theorem debug_flags_determine_port_and_suspend (c1 c2 : TServerDebugConfig) :
  KOTLIN_LANGUAGE_SERVER_OPTS c1 = KOTLIN_LANGUAGE_SERVER_OPTS c2 →
  port c1 = port c2 ∧ auto_suspend c1 = auto_suspend c2.
Proof.
  unfold KOTLIN_LANGUAGE_SERVER_OPTS. intros H%append_inj_prefix.
  assert (String.length (pretty (port c1)) = String.length (pretty (port c2))) as Hlen.
  { apply (f_equal String.length) in H. rewrite !length_append in H.
    destruct (auto_suspend c1), (auto_suspend c2); simpl in H; lia. }
  destruct (append_inj_length _ _ _ _ Hlen H) as [Hport Hrest].
  split; [by apply (inj pretty)|].
  apply append_inj_prefix in Hrest.
  by destruct (auto_suspend c1), (auto_suspend c2).
Qed.

Lemma debug_flags_determine_port_and_suspend_witness :
  KOTLIN_LANGUAGE_SERVER_OPTS {| is_enabled := true; auto_suspend := true; port := 5005 |}
  = KOTLIN_LANGUAGE_SERVER_OPTS {| is_enabled := false; auto_suspend := true; port := 5005 |}
  ∧ 5005%Z = 5005%Z.
Proof.
  split; [reflexivity|].
  apply (debug_flags_determine_port_and_suspend
           {| is_enabled := true; auto_suspend := true; port := 5005 |}
           {| is_enabled := false; auto_suspend := true; port := 5005 |}).
  reflexivity.
Defined.

(** ** The [kotlin.overrideMember] command *)

Section override_member.
Import OverrideMember.
Variable activeEditor : option TextEditor.
Variable response : string + list CodeAction.
Variable pick : list QuickPickItem → option (list QuickPickItem).

(** How a quick pick item relates to the candidate it was made from. *)
Lemma item_of_Some (uri : string) (elem : CodeAction) (item : QuickPickItem) :
  item_of uri elem = Some item ↔
  label item = title elem ∧
  ∃ e c, edit elem = Some e ∧ changes e = Some c ∧ data item = c !! uri.
Proof.
  unfold item_of. destruct (edit elem) as [e|] eqn:He; simpl.
  - destruct (changes e) as [c|] eqn:Hc; simpl.
    + split.
      * intros [= <-]. simpl. split; [done|]. by exists e, c.
      * intros (Hl & e' & c' & [= <-] & Hc' & Hd).
        rewrite Hc in Hc'. injection Hc' as <-.
        destruct item. simpl in *. by rewrite Hl, Hd.
    + split; [done|]. intros (_ & e' & c' & [= <-] & Hc' & _).
      by rewrite Hc in Hc'.
  - split; [done|]. by intros (_ & e' & c' & ? & _).
Qed.

Lemma insert_of_Some (item : QuickPickItem) (insert : Position * string) :
  insert_of item = Some insert ↔
  ∃ first rest,
    data item = Some (first :: rest) ∧
    insert = (range_start (range first), newText first).
Proof.
  unfold insert_of. destruct (data item) as [[|first rest]|]; simpl.
  - split; [done|]. by intros (? & ? & ? & _).
  - split.
    + intros [= <-]. eauto.
    + by intros (? & ? & [= <- <-] & ->).
  - split; [done|]. by intros (? & ? & ? & _).
Qed.

Ltac effect_cases H :=
  repeat (apply elem_of_cons in H as [H|H]; [try discriminate H|]);
  try by apply elem_of_nil in H.

(** X18. The quick pick is shown only for a non-empty list of candidates,
    and it then offers exactly one item for each candidate, in order: the
    item is labelled with the title of the candidate and carries the text
    edits the candidate has for the document of the active editor, and for
    no other document. *)
Theorem override_member_quick_pick (items : list QuickPickItem) :
  ShowQuickPick items ∈ (command activeEditor response pick).1 →
  ∃ editor overrideOptions,
    activeEditor = Some editor ∧
    response = inr overrideOptions ∧
    overrideOptions ≠ [] ∧
    Forall2
      (λ elem item,
         label item = title elem ∧
         ∃ e c, edit elem = Some e ∧ changes e = Some c ∧
                data item = c !! document_uri editor)
      overrideOptions items.
Proof.
  unfold command. destruct activeEditor as [editor|]; [|by intros ?%elem_of_nil].
  destruct response as [e|overrideOptions]; [intros H; effect_cases H|].
  case_bool_decide as Hlen; [intros H; effect_cases H|].
  destruct (mapM _ overrideOptions) as [items'|] eqn:Hitems;
    [|intros H; effect_cases H].
  intros Hin. assert (items = items') as ->.
  { destruct (pick items') as [selected|]; [destruct (mapM insert_of selected)|];
      effect_cases Hin; by injection Hin. }
  exists editor, overrideOptions. split_and!; try done.
  - by intros ->.
  - apply mapM_Some_1 in Hitems.
    eapply Forall2_impl; [exact Hitems|]. intros elem item. apply item_of_Some.
Qed.

(** X19. When the command applies an edit, the user has confirmed a
    selection, and the edit consists of one insertion for each selected item,
    in the order of the selection: the text of the first text edit of the
    item, inserted at the start of its range. Further text edits of an item
    are not applied. The command then completes normally. *)
Theorem override_member_inserts_first_edits (inserts : list (Position * string)) :
  ApplyEdit inserts ∈ (command activeEditor response pick).1 →
  (command activeEditor response pick).2 = Done ∧
  ∃ items selected,
    ShowQuickPick items ∈ (command activeEditor response pick).1 ∧
    pick items = Some selected ∧
    Forall2
      (λ item insert,
         ∃ first rest,
           data item = Some (first :: rest) ∧
           insert = (range_start (range first), newText first))
      selected inserts.
Proof.
  unfold command. destruct activeEditor as [editor|]; [|by intros ?%elem_of_nil].
  destruct response as [e|overrideOptions]; [intros H; effect_cases H|].
  case_bool_decide as Hlen; [intros H; effect_cases H|].
  destruct (mapM _ overrideOptions) as [items|] eqn:Hitems;
    [|intros H; effect_cases H].
  destruct (pick items) as [selected|] eqn:Hpick; [|intros H; effect_cases H].
  destruct (mapM insert_of selected) as [inserts'|] eqn:Hins;
    [|intros H; effect_cases H].
  intros Hin. effect_cases Hin. injection Hin as ->.
  split; [done|]. exists items, selected. split_and!; [|done|].
  - simpl. by repeat constructor.
  - apply mapM_Some_1 in Hins.
    eapply Forall2_impl; [exact Hins|]. intros item insert. apply insert_of_Some.
Qed.

(** X20. The command completes normally in two cases only: the server
    returns no candidate (a warning is then shown and nothing else happens),
    or every candidate carries an edit with changes, the user confirms a
    selection, and every selected item has at least one text edit for the
    document. Otherwise it fails: without an active editor, on a failed
    request, when the quick pick is dismissed, or when a selected item has no
    text edit for the document. *)
Theorem override_member_completes :
  (command activeEditor response pick).2 = Done ↔
  ∃ editor overrideOptions,
    activeEditor = Some editor ∧
    response = inr overrideOptions ∧
    (overrideOptions = [] ∧
     (command activeEditor response pick).1
       = [SendRequest (document_uri editor) (selection_start editor);
          ShowWarningMessage "No overrides found for class"]
     ∨
     ∃ items selected,
       overrideOptions ≠ [] ∧
       mapM (item_of (document_uri editor)) overrideOptions = Some items ∧
       pick items = Some selected ∧
       Forall (λ item, ∃ first rest, data item = Some (first :: rest)) selected).
Proof.
  unfold command. destruct activeEditor as [editor|].
  2: { split; [done|]. by intros (? & ? & ? & _). }
  destruct response as [e|overrideOptions].
  { split; [done|]. by intros (? & ? & _ & ? & _). }
  case_bool_decide as Hlen.
  { apply nil_length_inv in Hlen as ->. split; [|done].
    intros _. exists editor, []. split_and!; try done. by left. }
  assert (overrideOptions ≠ []) as Hne by (by intros ->).
  destruct (mapM _ overrideOptions) as [items|] eqn:Hitems.
  2: { split; [done|].
       intros (? & ? & [= <-] & [= <-] & [[-> _]|(? & ? & _ & Hi & _)]); [done|].
       by rewrite Hitems in Hi. }
  destruct (pick items) as [selected|] eqn:Hpick.
  2: { split; [done|].
       intros (? & ? & [= <-] & [= <-] & [[-> _]|(? & ? & _ & Hi & Hp & _)]); [done|].
       rewrite Hitems in Hi. injection Hi as <-. by rewrite Hpick in Hp. }
  destruct (mapM insert_of selected) as [inserts|] eqn:Hins.
  - split; [|done]. intros _. exists editor, overrideOptions.
    split_and!; try done. right. exists items, selected. split_and!; try done.
    apply mapM_Some_1 in Hins. clear Hpick.
    induction Hins as [|item insert ? ? Hi _ IH]; [constructor|].
    constructor; [|done].
    apply insert_of_Some in Hi as (first & rest & ? & _). eauto.
  - split; [done|].
    intros (? & ? & [= <-] & [= <-] & [[-> _]|(? & ? & _ & Hi & Hp & Hall)]); [done|].
    rewrite Hitems in Hi. injection Hi as <-.
    rewrite Hpick in Hp. injection Hp as <-.
    apply mapM_None_1 in Hins. apply Exists_exists in Hins as (item & Hin & Hnone).
    rewrite Forall_forall in Hall. destruct (Hall _ Hin) as (first & rest & Hdata).
    unfold insert_of in Hnone. by rewrite Hdata in Hnone.
Qed.

End override_member.

Lemma override_member_quick_pick_witness :
  OverrideMember.ShowQuickPick [OverrideMember.example_item]
    ∈ (OverrideMember.command (Some OverrideMember.example_editor)
         (inr [OverrideMember.example_candidate]) Some).1 ∧
  ∃ editor overrideOptions,
    Some OverrideMember.example_editor = Some editor ∧
    @inr string _ [OverrideMember.example_candidate] = inr overrideOptions ∧
    overrideOptions ≠ [] ∧
    Forall2
      (λ elem item,
         OverrideMember.label item = OverrideMember.title elem ∧
         ∃ e c, OverrideMember.edit elem = Some e ∧
                OverrideMember.changes e = Some c ∧
                OverrideMember.data item = c !! OverrideMember.document_uri editor)
      overrideOptions [OverrideMember.example_item].
Proof.
  assert (OverrideMember.ShowQuickPick [OverrideMember.example_item]
            ∈ (OverrideMember.command (Some OverrideMember.example_editor)
                 (inr [OverrideMember.example_candidate]) Some).1) as Hin.
  { vm_compute. repeat constructor. }
  split; [exact Hin|].
  exact (override_member_quick_pick _ _ _ _ Hin).
Defined.

Lemma override_member_inserts_first_edits_witness :
  OverrideMember.ApplyEdit
    [({| OverrideMember.line := 5; OverrideMember.character := 0 |},
      "override fun toString(): String = TODO()")]
    ∈ (OverrideMember.command (Some OverrideMember.example_editor)
         (inr [OverrideMember.example_candidate]) Some).1 ∧
  (OverrideMember.command (Some OverrideMember.example_editor)
     (inr [OverrideMember.example_candidate]) Some).2 = OverrideMember.Done.
Proof.
  assert (OverrideMember.ApplyEdit
            [({| OverrideMember.line := 5; OverrideMember.character := 0 |},
              "override fun toString(): String = TODO()")]
            ∈ (OverrideMember.command (Some OverrideMember.example_editor)
                 (inr [OverrideMember.example_candidate]) Some).1) as Hin.
  { vm_compute. repeat constructor. }
  split; [exact Hin|].
  apply (override_member_inserts_first_edits _ _ _ _ Hin).
Defined.
